(** * The Beat Bakery: pattern store, playback controller and punchcard

    A shallow embedding of the two authored pieces of the repository:

    - the [App] component (route [/]): the state of the pattern list and of
      the playback session, and the handlers [createAndPlayPattern],
      [playAll], [stopAll], [addPattern], [removePattern], [updatePattern];
    - the [Punchcard] component's [drawCustomVisualization], the routine that
      paints the event list on a 2D canvas context.

    The Strudel engine ([s], [.gain], [.play], [.stop], [hush]) is external:
    it is a parameter of the model (record [Engine]), and every call made to
    it is logged, together with the alerts, the console output and the React
    state setters, in the order in which the handler performs them. *)

From Stdlib Require Import List String Ascii Bool Arith NArith ZArith Lia.
From Stdlib Require Import DecimalString DecimalN.
From Stdlib Require Import Floats.
Import ListNotations.

Set Implicit Arguments.
Set Warnings "-inexact-float".

Local Open Scope string_scope.
Local Open Scope list_scope.

(** ** JavaScript values used by both components *)

Module JS.

(** A JS [number] is an IEEE 754 binary64 value: the kernel's [float]. *)
Definition number := float.

(** Strings are sequences of code units; the model's alphabet is the 256
    code units of [ascii].  [is_white_space] is the WhiteSpace and
    LineTerminator class of [String.prototype.trim] restricted to it:
    TAB, LF, VT, FF, CR, SP and NBSP. *)
Definition is_white_space (c : ascii) : bool :=
  let n := nat_of_ascii c in
  ((9 <=? n)%nat && (n <=? 13)%nat) || (n =? 32)%nat || (n =? 160)%nat.

Fixpoint trimStart (str : string) : string :=
  match str with
  | EmptyString => EmptyString
  | String c rest => if is_white_space c then trimStart rest else str
  end.

Fixpoint trimEnd (str : string) : string :=
  match str with
  | EmptyString => EmptyString
  | String c rest =>
      match trimEnd rest with
      | EmptyString => if is_white_space c then EmptyString else String c EmptyString
      | kept => String c kept
      end
  end.

(** [str.trim()] *)
Definition trim (str : string) : string := trimEnd (trimStart str).

(** Truthiness of a string in a condition: every string but the empty one. *)
Definition truthy (str : string) : bool :=
  match str with
  | EmptyString => false
  | String _ _ => true
  end.

(** [arr.join(sep)] on an array of strings. *)
Definition join (sep : string) (arr : list string) : string :=
  String.concat sep arr.

(** [n.toString()] for a non-negative integer counter: its decimal digits.
    The counter is held in [N]; this is [Number.prototype.toString] on the
    integers a double represents exactly. *)
Definition toString (n : N) : string :=
  NilEmpty.string_of_uint (N.to_uint n).

(** [Number.MAX_SAFE_INTEGER], [2^53 - 1]: up to it a double counts the
    integers one by one. *)
Definition MAX_SAFE_INTEGER : N := 9007199254740991.

(** [n + 1] on a counter: the binary64 sum, on the non-negative integers
    that a double holds.  Up to [MAX_SAFE_INTEGER] it is the next integer.
    Above, the doubles are the even integers up to [2^54], and [n + 1] lies
    half-way between two of them: it is rounded to the one of even
    significand ([n / 2]), so [2^53 + 1] is [2^53] again.  From [2^54] on
    the doubles are at least 4 apart and [n + 1] is rounded back to [n]. *)
Definition increment (n : N) : N :=
  if (n <=? MAX_SAFE_INTEGER)%N then (n + 1)%N
  else if (n <? 2 * (MAX_SAFE_INTEGER + 1))%N then
         if N.even (n / 2) then n else (n + 2)%N
       else n.

(** The double of a non-negative integer, and the integer of a double that
    is one: the two readings that relate [increment] to binary64 [+]. *)
Definition double_of_N (n : N) : number :=
  PrimFloat.of_uint63 (Uint63.of_Z (Z.of_N n)).

Definition N_of_double (x : number) : N :=
  match Prim2SF x with
  | S754_finite false m e => Z.to_N (Z.shiftl (Z.pos m) e)
  | _ => 0%N
  end.

(** The conversion of an array length or loop index to a [number]. *)
Definition of_nat (n : nat) : number :=
  PrimFloat.of_uint63 (Uint63.of_Z (Z.of_nat n)).

(** [Math.max(a, b)]: NaN when either argument is NaN, and +0 above -0. *)
Definition Math_max (a b : number) : number :=
  if PrimFloat.is_nan a then a
  else if PrimFloat.is_nan b then b
  else if PrimFloat.ltb a b then b
  else if PrimFloat.ltb b a then a
  else if PrimFloat.get_sign a then b else a.

(** [Math.abs(a)] *)
Definition Math_abs (a : number) : number := PrimFloat.abs a.

(** The magnitude [m * 2^e] of a finite non-zero double, as an integer
    multiple of [2^e0] for an exponent [e0 <= e]. *)
Definition scaled (m : positive) (e e0 : Z) : Z :=
  Z.shiftl (Z.pos m) (e - e0).

(** [n % d]: the remainder of the truncating division, computed exactly; it
    takes the sign of the dividend.  NaN when an operand is NaN, the dividend
    is infinite or the divisor is zero; the dividend itself when it is zero
    or the divisor is infinite. *)
Definition rem (n d : number) : number :=
  match Prim2SF n, Prim2SF d with
  | S754_nan, _ | _, S754_nan => PrimFloat.nan
  | S754_infinity _, _ => PrimFloat.nan
  | _, S754_zero _ => PrimFloat.nan
  | S754_zero _, _ => n
  | S754_finite _ _ _, S754_infinity _ => n
  | S754_finite sn mn en, S754_finite _ md ed =>
      let e0 := Z.min en ed in
      match Z.rem (scaled mn en e0) (scaled md ed e0) with
      | Z.pos r => SF2Prim (S754_finite sn r e0)
      | _ => SF2Prim (S754_zero sn)
      end
  end.

End JS.

(** ** The [App] component: pattern store and playback controller *)

Module App.

(** [interface PatternInput] *)
Record PatternInput := mkPatternInput {
  id : string;
  pattern : string;
  name : string
}.

(** [keyof PatternInput], the [field] argument of [updatePattern]. *)
Inductive Field := FId | FPattern | FName.

(** [{ ...p, [field]: value }] *)
Definition withField (p : PatternInput) (field : Field) (value : string)
  : PatternInput :=
  match field with
  | FId => mkPatternInput value (pattern p) (name p)
  | FPattern => mkPatternInput (id p) value (name p)
  | FName => mkPatternInput (id p) (pattern p) value
  end.

(** A value thrown by a JS call. *)
Inductive JsError := Error (message : string).

(** How the evaluation of a JS expression ends: with a value, or by
    throwing. *)
Inductive Completion (A : Type) :=
| Normal (a : A)
| Throw (e : JsError).
Arguments Throw {A} e.

Section WithEngine.

(** The compiled pattern objects of the engine: opaque to the app, which
    only passes them around (the declaration file types them [any]). *)
Variable Handle : Type.

(** The engine, as the app sees it.  [s], [.gain] and [.play] are the
    calls the handlers guard with [try]/[catch]: each either returns or
    throws.  What [s] and [.gain] return is a pattern object, as the
    declaration of [StrudelPattern] says, hence a truthy value.  [.stop]
    is not part of the declared pattern interface and is reached through
    the optional call [.stop?.()]: [has_stop] tells whether a handle
    carries the method.  [.stop] and [hush] are commands ([void]) that the
    source calls outside any [try]; they return. *)
Record Engine := mkEngine {
  s : string -> Completion Handle;
  gain : Handle -> option JS.number -> Completion Handle;
  play : Handle -> Completion unit;
  has_stop : Handle -> bool
}.

(** What a handler does, in the order in which it does it: calls into the
    engine, user-facing alerts, console output, and calls of the React
    state setters (which queue an update for the next render). *)
Inductive Effect :=
| CallS (text : string)
| CallGain (h : Handle) (value : option JS.number)
| CallPlay (h : Handle)
| CallStop (h : Handle)
| CallHush
| ConsoleError (message : string) (error : JsError)
| Alert (message : string)
| SetPatterns (ps : list PatternInput)
| SetVolume (v : list JS.number)
| SetNextId (n : N)
| SetIsPlaying (b : bool)
| SetCombinedPattern (h : option Handle).

(** A handler run: the log of its effects and its completion. *)
Definition Run (A : Type) : Type := (list Effect * Completion A)%type.

Definition ret {A} (a : A) : Run A := ([], Normal a).

Definition bind {A B} (m : Run A) (k : A -> Run B) : Run B :=
  match m with
  | (log, Normal a) => let (log', c) := k a in (log ++ log', c)
  | (log, Throw e) => (log, Throw e)
  end.

(** [try { body } catch (error) { handler }] *)
Definition try_catch {A} (body : Run A) (handler : JsError -> Run A) : Run A :=
  match body with
  | (log, Normal a) => (log, Normal a)
  | (log, Throw e) => let (log', c) := handler e in (log ++ log', c)
  end.

Definition throw {A} (e : JsError) : Run A := ([], Throw e).

Definition emit (ef : Effect) : Run unit := ([ef], Normal tt).

(** The state of the component: the five [useState] cells and the two
    refs. [volume] is the slider's array of thumb values; [volumeRef]
    holds [volume[0]], undefined when the array is empty. *)
Record AppState := mkAppState {
  patterns : list PatternInput;
  volume : list JS.number;
  nextId : N;
  isPlaying : bool;
  combinedPattern : option Handle;
  patternsRef : list PatternInput;
  volumeRef : option JS.number
}.

End WithEngine.

Arguments CallS {Handle} text.
Arguments CallHush {Handle}.
Arguments ConsoleError {Handle} message error.
Arguments Alert {Handle} message.
Arguments SetPatterns {Handle} ps.
Arguments SetVolume {Handle} v.
Arguments SetNextId {Handle} n.
Arguments SetIsPlaying {Handle} b.
Arguments ret {Handle A} a.
Arguments throw {Handle A} e.

Declare Scope run_scope.
Delimit Scope run_scope with run.
Notation "x <- m ;; k" := (bind m (fun x => k))
  (at level 61, m at next level, right associativity) : run_scope.
Notation "m ;; k" := (bind m (fun _ => k))
  (at level 61, right associativity) : run_scope.

Local Open Scope run_scope.

Section Handlers.

Context {Handle : Type}.

(** The engine the page is loaded with, and the render whose closures
    the handlers are: [useCallback] lists every state cell a handler
    reads among its dependencies, so a handler sees the state of the
    latest render [st], and the refs as the effects of that render left
    them. *)
Variable engine : Engine Handle.
Variable st : AppState Handle.

Definition call_s (text : string) : Run Handle Handle :=
  ([CallS text], s engine text).

Definition call_gain (h : Handle) (value : option JS.number)
  : Run Handle Handle :=
  ([CallGain h value], gain engine h value).

Definition call_play (h : Handle) : Run Handle unit :=
  ([CallPlay h], play engine h).

(** [h.stop?.()] *)
Definition call_stop_opt (h : Handle) : Run Handle unit :=
  if has_stop engine h then emit (CallStop h) else ret tt.

Definition hush : Run Handle unit := emit CallHush.
Definition alert (message : string) : Run Handle unit :=
  emit (Alert message).
Definition console_error (message : string) (error : JsError)
  : Run Handle unit :=
  emit (ConsoleError message error).

Definition setPatterns (ps : list PatternInput) : Run Handle unit :=
  emit (SetPatterns ps).
Definition setVolume (v : list JS.number) : Run Handle unit :=
  emit (SetVolume v).
Definition setNextId (n : N) : Run Handle unit := emit (SetNextId n).
Definition setIsPlaying (b : bool) : Run Handle unit :=
  emit (SetIsPlaying b).
Definition setCombinedPattern (h : option Handle) : Run Handle unit :=
  emit (SetCombinedPattern h).

(** [patternsRef.current.filter(p => p.pattern.trim())] *)
Definition validPatterns : list PatternInput :=
  filter (fun p => JS.truthy (JS.trim (pattern p))) (patternsRef st).

(** The combiner.  Returns the gained pattern, or [null] (here [None])
    when there is nothing to compile or when compiling threw. *)
Definition createAndPlayPattern : Run Handle (option Handle) :=
  if (List.length validPatterns =? 0)%nat then ret None
  else
    try_catch
      (combined <-
         (if (List.length validPatterns =? 1)%nat then
            match nth_error validPatterns 0 with
            | Some p => call_s (pattern p)
            | None => throw (Error "TypeError")
            end
          else
            let patternStrings := map pattern validPatterns in
            call_s (JS.join ", " patternStrings)) ;;
       finalPattern <- call_gain combined (volumeRef st) ;;
       ret (Some finalPattern))
      (fun error =>
         console_error "Error creating pattern:" error ;;
         ret None).

Definition playAll : Run Handle unit :=
  pattern <- createAndPlayPattern ;;
  match pattern with
  | None => alert "No valid patterns to play"
  | Some pattern =>
      try_catch
        (call_play pattern ;;
         setCombinedPattern (Some pattern) ;;
         setIsPlaying true)
        (fun error =>
           console_error "Error playing patterns:" error ;;
           alert "Error playing patterns. Please check your syntax.")
  end.

Definition stopAll : Run Handle unit :=
  match combinedPattern st with
  | Some h => call_stop_opt h
  | None => ret tt
  end ;;
  hush ;;
  setIsPlaying false ;;
  setCombinedPattern None.

Definition addPattern : Run Handle unit :=
  let newPattern :=
    {| id := JS.toString (nextId st);
       pattern := "";
       name := String.append "Pattern " (JS.toString (nextId st)) |} in
  setPatterns (patterns st ++ [newPattern]) ;;
  setNextId (JS.increment (nextId st)).

Definition removePattern (id0 : string) : Run Handle unit :=
  (if isPlaying st then stopAll else ret tt) ;;
  setPatterns (filter (fun p => negb (id p =? id0)%string) (patterns st)).

Definition updatePattern (id0 : string) (field : Field) (value : string)
  : Run Handle unit :=
  setPatterns
    (map (fun p => if (id p =? id0)%string then withField p field value else p)
         (patterns st)).

(** The handlers the page wires to its controls. *)
Inductive Action :=
| PlayAll
| StopAll
| AddPattern
| RemovePattern (id0 : string)
| UpdatePattern (id0 : string) (field : Field) (value : string)
| ChangeVolume (v : list JS.number).

Definition handle (a : Action) : Run Handle unit :=
  match a with
  | PlayAll => playAll
  | StopAll => stopAll
  | AddPattern => addPattern
  | RemovePattern id0 => removePattern id0
  | UpdatePattern id0 field value => updatePattern id0 field value
  | ChangeVolume v => setVolume v
  end.

End Handlers.

Section Rendering.

Context {Handle : Type}.

(** A queued state update, applied. *)
Definition apply (st : AppState Handle) (ef : Effect Handle)
  : AppState Handle :=
  match ef with
  | SetPatterns ps =>
      mkAppState ps (volume st) (nextId st) (isPlaying st)
                 (combinedPattern st) (patternsRef st) (volumeRef st)
  | SetVolume v =>
      mkAppState (patterns st) v (nextId st) (isPlaying st)
                 (combinedPattern st) (patternsRef st) (volumeRef st)
  | SetNextId n =>
      mkAppState (patterns st) (volume st) n (isPlaying st)
                 (combinedPattern st) (patternsRef st) (volumeRef st)
  | SetIsPlaying b =>
      mkAppState (patterns st) (volume st) (nextId st) b
                 (combinedPattern st) (patternsRef st) (volumeRef st)
  | SetCombinedPattern h =>
      mkAppState (patterns st) (volume st) (nextId st) (isPlaying st)
                 h (patternsRef st) (volumeRef st)
  | _ => st
  end.

(** The two [useEffect]s that copy the state into the refs after a
    render: [patternsRef.current = patterns] and
    [volumeRef.current = volume[0]]. *)
Definition useEffects (st : AppState Handle) : AppState Handle :=
  mkAppState (patterns st) (volume st) (nextId st) (isPlaying st)
             (combinedPattern st) (patterns st) (nth_error (volume st) 0).

(** The render that follows a handler: the queued updates are applied in
    the order of the setter calls, then the effects run. *)
Definition render (st : AppState Handle) (log : list (Effect Handle))
  : AppState Handle :=
  useEffects (fold_left apply log st).

(** One event of the page: the handler runs on the current render, and
    the component renders again.  Updates queued before a throw stay
    queued. *)
Definition dispatch (engine : Engine Handle) (a : Action)
           (st : AppState Handle) : AppState Handle :=
  render st (fst (handle engine st a)).

(** The refs of a state agree with its cells, as after every render. *)
Definition settled (st : AppState Handle) : Prop :=
  patternsRef st = patterns st /\ volumeRef st = nth_error (volume st) 0.

Definition initialPatterns : list PatternInput :=
  [ {| id := "1"; pattern := "bd sd [~ bd] sd"; name := "Kick & Snare" |};
    {| id := "2"; pattern := "hh*8"; name := "Hi-hats" |} ].

(** The first render. *)
Definition initial : AppState Handle :=
  mkAppState initialPatterns [0.7%float] 3%N false None
             initialPatterns (Some 0.7%float).

(** The page calls [updatePattern] on the name and on the pattern text
    only; every other handler is on a control. *)
Definition fromPage (a : Action) : bool :=
  match a with
  | UpdatePattern _ FId _ => false
  | _ => true
  end.

(** The states the page can be in.  The engine may answer differently at
    each event.  Disabled buttons are not modelled: a state reached by
    pressing one is counted as reachable too. *)
Inductive reachable : AppState Handle -> Prop :=
| reach_initial : reachable initial
| reach_dispatch (engine : Engine Handle) (a : Action) (st : AppState Handle) :
    reachable st -> fromPage a = true -> reachable (dispatch engine a st).

(** The store invariant: every id in the list is the decimal form of a
    counter value already used, so the next id is new. *)
Definition ids_fresh (st : AppState Handle) : Prop :=
  forall p, In p (patterns st) ->
            exists k, (k < nextId st)%N /\ id p = JS.toString k.

(** The session invariant: a playing page holds a compiled pattern. *)
Definition session_ok (st : AppState Handle) : Prop :=
  isPlaying st = true -> combinedPattern st <> None.

End Rendering.

(** *** Reading a run back *)

Section Observing.

Context {Handle : Type}.

Definition effects {A} (r : Run Handle A) : list (Effect Handle) := fst r.
Definition completion {A} (r : Run Handle A) : Completion A := snd r.

(** The call threw: the engine's answer to a logged call is a throw. *)
Definition raises (engine : Engine Handle) (ef : Effect Handle) : bool :=
  match ef with
  | CallS text =>
      match s engine text with Throw _ => true | Normal _ => false end
  | CallGain h value =>
      match gain engine h value with Throw _ => true | Normal _ => false end
  | CallPlay h =>
      match play engine h with Throw _ => true | Normal _ => false end
  | _ => false
  end.

Definition is_alert (ef : Effect Handle) : bool :=
  match ef with Alert _ => true | _ => false end.

Definition is_compile (ef : Effect Handle) : bool :=
  match ef with CallS _ => true | _ => false end.

Definition is_setter (ef : Effect Handle) : bool :=
  match ef with
  | SetPatterns _ | SetVolume _ | SetNextId _
  | SetIsPlaying _ | SetCombinedPattern _ => true
  | _ => false
  end.

Definition is_setIsPlaying (ef : Effect Handle) : bool :=
  match ef with SetIsPlaying _ => true | _ => false end.

(** The text the combiner hands to the compiler, in the words of the
    specification: the one valid text when there is one, the valid texts
    joined by a comma and a space when there are several. *)
Definition combinedText (st : AppState Handle) : option string :=
  match validPatterns st with
  | [] => None
  | [p] => Some (pattern p)
  | ps => Some (JS.join ", " (map pattern ps))
  end.

(** The per-pattern stop of [stopAll]: the optional call on the compiled
    pattern of the render, when there is one. *)
Definition patternStop (engine : Engine Handle) (st : AppState Handle)
  : list (Effect Handle) :=
  match combinedPattern st with
  | Some h => if has_stop engine h then [CallStop h] else []
  | None => []
  end.

End Observing.

End App.

(** ** Engines to run the handlers on *)

Module Engines.

Import App.

(** A compiled pattern that remembers what it was compiled from and the
    gain it was given. *)
Inductive Compiled := Pat (text : string) (level : option JS.number).

Definition regain (h : Compiled) (value : option JS.number) : Compiled :=
  match h with
  | Pat text _ => Pat text value
  end.

(** An engine on which every call returns. *)
Definition working : Engine Compiled :=
  {| s := fun text => Normal (Pat text None);
     gain := fun h value => Normal (regain h value);
     play := fun _ => Normal tt;
     has_stop := fun _ => true |}.

(** An engine whose compiler rejects every text. *)
Definition rejecting : Engine Compiled :=
  {| s := fun _ => Throw (Error "parse error");
     gain := fun h value => Normal (regain h value);
     play := fun _ => Normal tt;
     has_stop := fun _ => true |}.

(** An engine whose player throws. *)
Definition silent : Engine Compiled :=
  {| s := fun text => Normal (Pat text None);
     gain := fun h value => Normal (regain h value);
     play := fun _ => Throw (Error "audio context unavailable");
     has_stop := fun _ => false |}.

(** An engine on which every call returns, and whose patterns carry no
    [.stop] method (the declared [StrudelPattern] has none). *)
Definition stopless : Engine Compiled :=
  {| s := fun text => Normal (Pat text None);
     gain := fun h value => Normal (regain h value);
     play := fun _ => Normal tt;
     has_stop := fun _ => false |}.

(** A page holding the given pattern texts, stopped, after a render. *)
Definition pageOf (texts : list string) : AppState Compiled :=
  let ps := map (fun t => mkPatternInput t t t) texts in
  mkAppState ps [0.7%float] 3%N false None ps (Some 0.7%float).

End Engines.

(** ** The [Punchcard] component: the custom canvas drawing *)

Module Punchcard.

Local Open Scope float_scope.

(** [interface PunchcardData] *)
Record PunchcardData := mkPunchcardData {
  time : JS.number;
  value : string;
  name : option string
}.

(** A value assigned to [fillStyle], [strokeStyle] or [shadowColor]: a
    string, or a template literal with one interpolated number (kept as
    the number, not as its digits). *)
Inductive Style :=
| Css (text : string)
| CssNum (before : string) (n : JS.number) (after : string).

(** The operations performed on the 2D context, in order: property
    assignments and method calls.  [console.log] is not one of them. *)
Inductive CanvasOp :=
| fillStyle (v : Style)
| strokeStyle (v : Style)
| lineWidth (v : JS.number)
| font (v : string)
| textAlign (v : string)
| shadowColor (v : Style)
| shadowBlur (v : JS.number)
| setLineDash (segments : list JS.number)
| fillText (text : string) (x y : JS.number)
| fillRect (x y w h : JS.number)
| beginPath
| moveTo (x y : JS.number)
| lineTo (x y : JS.number)
| closePath
| stroke
| fill.

(** [for (let i = from; i < to; i++) body(i)] *)
Definition for_range (from to : nat) (body : nat -> list CanvasOp)
  : list CanvasOp :=
  flat_map body (seq from (to - from)).

(** [arr.forEach((x, index) => body(x, index))] *)
Fixpoint forEach_from {A} (index : nat) (arr : list A)
         (body : A -> nat -> list CanvasOp) : list CanvasOp :=
  match arr with
  | [] => []
  | x :: rest => body x index ++ forEach_from (S index) rest body
  end.

Definition forEach {A} (arr : list A) (body : A -> nat -> list CanvasOp)
  : list CanvasOp :=
  forEach_from 0 arr body.

(** [[...new Set(values)]]: the distinct values, in order of first
    occurrence. *)
Definition distinct (values : list string) : list string :=
  fold_left
    (fun seen v => if existsb (String.eqb v) seen then seen else seen ++ [v])
    values [].

Definition colors : list string :=
  [ "#8b5cf6"; "#06b6d4"; "#10b981"; "#f59e0b"; "#ef4444"; "#ec4899" ]%string.

Definition beatsVisible : nat := 4.

(** The highlight test of an event (the local [isActive]). *)
Definition isActive (isPlaying : bool) (now : JS.number)
           (event : PunchcardData) : bool :=
  isPlaying &&
  (JS.Math_abs (JS.rem now (JS.of_nat beatsVisible)
                - JS.rem (time event) (JS.of_nat beatsVisible)) <? 0.1).

Section Drawing.

(** The [isPlaying] prop of the render the routine belongs to, and its
    arguments ([now] is the argument the source calls [time]). *)
Variable isPlaying : bool.
Variable eventData : list PunchcardData.
Variable now width height : JS.number.

(** The branch taken on an empty event list. *)
Definition drawNoData : list CanvasOp :=
  [ fillStyle (Css "#6b7280");
    font "16px monospace";
    textAlign "center";
    fillText "No pattern data available" (width / 2) (height / 2) ]
  ++ for_range 0 4 (fun i =>
       [ fillStyle (CssNum "rgba(139, 92, 246, " (0.3 + JS.of_nat i * 0.1) ")");
         fillRect (JS.of_nat i * (width / 4) + 10) (height * 0.7)
                  (width / 4 - 20) 20 ]).

Definition instruments : list string := distinct (map value eventData).

Definition trackHeight : JS.number :=
  JS.Math_max 40
    (height / JS.of_nat (Nat.max (List.length instruments) 1)).

Definition timeScale : JS.number := width / JS.of_nat beatsVisible.

Definition drawGrid : list CanvasOp :=
  [ strokeStyle (Css "rgba(255, 255, 255, 0.1)"); lineWidth 1 ]
  ++ for_range 0 (beatsVisible + 1) (fun i =>
       let x := JS.of_nat i * (width / JS.of_nat beatsVisible) in
       [ beginPath; moveTo x 0; lineTo x height; stroke ])
  ++ [ strokeStyle (Css "rgba(255, 255, 255, 0.05)") ]
  ++ for_range 0 (beatsVisible * 4) (fun i =>
       let x := JS.of_nat i * (width / JS.of_nat (beatsVisible * 4)) in
       [ beginPath; moveTo x 0; lineTo x height; stroke ]).

(** The body of the inner [forEach]: one event of a track. *)
Definition drawEvent (y : JS.number) (color : string)
           (event : PunchcardData) : list CanvasOp :=
  let x := JS.rem (time event) (JS.of_nat beatsVisible) * timeScale in
  let eventWidth := JS.Math_max 12 (timeScale / 8) in
  let eventHeight := trackHeight * 0.5 in
  (if isActive isPlaying now event then
     [ shadowColor (Css color); shadowBlur 10; fillStyle (Css color) ]
   else
     [ shadowBlur 0;
       fillStyle (Css (if isPlaying then String.append color "80" else color)) ])
  ++ [ fillRect x (y + trackHeight * 0.3) eventWidth eventHeight;
       shadowBlur 0 ].

(** The body of the outer [forEach]: one track. *)
Definition drawTrack (instrument : string) (index : nat) : list CanvasOp :=
  let y := JS.of_nat index * trackHeight in
  let color := nth (index mod List.length colors) colors ""%string in
  [ fillStyle (Css "rgba(255, 255, 255, 0.05)");
    fillRect 0 y width (trackHeight - 2);
    fillStyle (Css "#d1d5db");
    font "14px monospace";
    textAlign "left";
    fillText instrument 8 (y + 25) ]
  ++ forEach (filter (fun event => String.eqb (value event) instrument) eventData)
             (fun event _ => drawEvent y color event).

Definition drawPlayhead : list CanvasOp :=
  let currentX := JS.rem now (JS.of_nat beatsVisible) * timeScale in
  [ strokeStyle (Css "#ffffff");
    lineWidth 3;
    setLineDash [];
    beginPath;
    moveTo currentX 0;
    lineTo currentX height;
    stroke;
    fillStyle (Css "#ffffff");
    beginPath;
    moveTo (currentX - 6) 0;
    lineTo (currentX + 6) 0;
    lineTo currentX 12;
    closePath;
    fill ].

Definition drawCustomVisualization : list CanvasOp :=
  if (List.length eventData =? 0)%nat then drawNoData
  else
    drawGrid
    ++ forEach instruments drawTrack
    ++ (if isPlaying then drawPlayhead else []).

End Drawing.

(** *** Reading a drawing back *)

(** The text drawn, in order. *)
Definition texts (ops : list CanvasOp) : list string :=
  flat_map (fun op => match op with fillText t _ _ => [t] | _ => [] end) ops.

(** The part of the context state a filled rectangle is painted with. *)
Record Paint := mkPaint {
  paint_fill : Style;
  paint_shadowColor : Style;
  paint_shadowBlur : JS.number
}.

(** A fresh context: black fill, transparent shadow, no blur. *)
Definition freshPaint : Paint :=
  mkPaint (Css "#000000") (Css "rgba(0, 0, 0, 0)") 0.

(** A filled rectangle as it reaches the canvas. *)
Record Rect := mkRect {
  rect_x : JS.number;
  rect_y : JS.number;
  rect_w : JS.number;
  rect_h : JS.number;
  rect_paint : Paint
}.

(** The rectangles a sequence of operations fills, each with the paint in
    force when it is filled. *)
Fixpoint rects_from (p : Paint) (ops : list CanvasOp) : list Rect :=
  match ops with
  | [] => []
  | fillStyle v :: rest =>
      rects_from (mkPaint v (paint_shadowColor p) (paint_shadowBlur p)) rest
  | shadowColor v :: rest =>
      rects_from (mkPaint (paint_fill p) v (paint_shadowBlur p)) rest
  | shadowBlur v :: rest =>
      rects_from (mkPaint (paint_fill p) (paint_shadowColor p) v) rest
  | fillRect x y w h :: rest => mkRect x y w h p :: rects_from p rest
  | _ :: rest => rects_from p rest
  end.

Definition rects (ops : list CanvasOp) : list Rect := rects_from freshPaint ops.

(** Operations that build or paint a path (grid lines, playhead). *)
Definition is_path_op (op : CanvasOp) : bool :=
  match op with
  | beginPath | moveTo _ _ | lineTo _ _ | closePath | stroke | fill
  | strokeStyle _ | lineWidth _ | setLineDash _ => true
  | _ => false
  end.

(** Operations that set a shadow (the glow of an active event). *)
Definition is_shadow_op (op : CanvasOp) : bool :=
  match op with
  | shadowColor _ | shadowBlur _ => true
  | _ => false
  end.

(** A rectangle glows when it is filled under a shadow blur. *)
Definition glows (r : Rect) : bool := 0 <? paint_shadowBlur (rect_paint r).

(** The fill style and the glow of every rectangle of a drawing. *)
Definition looks (ops : list CanvasOp) : list (Style * bool) :=
  map (fun r => (paint_fill (rect_paint r), glows r)) (rects ops).

(** The event list of the specification's worked example. *)
Definition exampleEvents : list PunchcardData :=
  [ mkPunchcardData 0 "bd" None;
    mkPunchcardData 1 "sd" None;
    mkPunchcardData 0.5 "hh" None ].

(** The position and size of a rectangle. *)
Definition geometry (r : Rect) : JS.number * JS.number * JS.number * JS.number :=
  (rect_x r, rect_y r, rect_w r, rect_h r).

End Punchcard.

(** ** Reading a whole drawing back *)

Module Reading.

Import Punchcard.

Local Open Scope float_scope.

(** The paint in force after a sequence of operations. *)
Fixpoint paint_after (p : Paint) (ops : list CanvasOp) : Paint :=
  match ops with
  | [] => p
  | fillStyle v :: rest =>
      paint_after (mkPaint v (paint_shadowColor p) (paint_shadowBlur p)) rest
  | shadowColor v :: rest =>
      paint_after (mkPaint (paint_fill p) v (paint_shadowBlur p)) rest
  | shadowBlur v :: rest =>
      paint_after (mkPaint (paint_fill p) (paint_shadowColor p) v) rest
  | _ :: rest => paint_after p rest
  end.

(** The fill style and the glow of a rectangle. *)
Definition look (r : Rect) : Style * bool :=
  (paint_fill (rect_paint r), glows r).

(** The colour of the track of a given index: [colors[index % colors.length]]. *)
Definition trackColor (index : nat) : string :=
  nth (index mod List.length colors) colors ""%string.

(** How an event is expected to look on a track of a given colour: the full
    colour under a glow when it is active; otherwise no glow, and the colour
    at half opacity while the page plays, the full colour while it is
    stopped. *)
Definition eventLook (isPlaying : bool) (now : JS.number) (color : string)
           (event : PunchcardData) : Style * bool :=
  if isActive isPlaying now event then (Css color, true)
  else (Css (if isPlaying then String.append color "80" else color), false).

(** The events of an instrument, in the order of the event list. *)
Definition eventsOf (eventData : list PunchcardData) (instrument : string)
  : list PunchcardData :=
  filter (fun event => String.eqb (value event) instrument) eventData.

(** The expected looks of the tracks from a given index on: for each
    instrument a plain background, then its events. *)
Fixpoint trackLooks_from (isPlaying : bool) (eventData : list PunchcardData)
         (now : JS.number) (index : nat) (instruments : list string)
  : list (Style * bool) :=
  match instruments with
  | [] => []
  | instrument :: rest =>
      ((Css "rgba(255, 255, 255, 0.05)", false)
         :: map (eventLook isPlaying now (trackColor index))
                (eventsOf eventData instrument))
      ++ trackLooks_from isPlaying eventData now (S index) rest
  end.

(** The operations that only the playhead performs. *)
Definition is_playhead_op (op : CanvasOp) : bool :=
  match op with
  | setLineDash _ | closePath | fill => true
  | _ => false
  end.

Definition is_stroke (op : CanvasOp) : bool :=
  match op with
  | stroke => true
  | _ => false
  end.

End Reading.

(** ** The effect of the [Punchcard] component *)

Module PunchcardEffect.

Import Punchcard.

Local Open Scope float_scope.

(** The options object handed to [drawPianoroll] (without its [ctx], the
    one context of the canvas). *)
Record PianorollOptions (Hap : Type) := mkPianorollOptions {
  haps : list Hap;
  time : JS.number;
  drawTime : JS.number * JS.number;
  cycles : JS.number;
  playhead : JS.number;
  fold : JS.number;
  labels : bool;
  fill : JS.number;
  fillActive : JS.number;
  strokeActive : JS.number;
  active : string;
  inactive : string;
  background : string;
  playheadColor : string;
  fontFamily : string;
  autorange : JS.number;
  vertical : JS.number
}.

(** What [canvas.getBoundingClientRect()] returns. *)
Record DOMRect := mkDOMRect {
  width : JS.number;
  height : JS.number
}.

(** The canvas element as the effect sees it: its on-screen box, and
    whether [getContext('2d')] gives a context. *)
Record Canvas := mkCanvas {
  boundingClientRect : DOMRect;
  has2d : bool
}.

Section WithHaps.

Variable Hap : Type.

(** The [pattern] prop, when given: [queryArc] is the method when it has
    one that is a function; a query returns, or throws; what it returns is
    an array of haps or a falsy value. *)
Record Pattern := mkPattern {
  queryArc :
    option (JS.number -> JS.number -> App.Completion (option (list Hap)))
}.

(** What the effect does, in order. *)
Inductive Op :=
| setCanvasWidth (v : JS.number)
| setCanvasHeight (v : JS.number)
| getContext
| ctxScale (x y : JS.number)
| setStyleWidth (px : JS.number)
| setStyleHeight (px : JS.number)
| ctx (op : CanvasOp)
| consoleLog (message : string)
| consoleWarn (message : string) (error : App.JsError)
| callQueryArc (from to : JS.number)
| callDrawPianoroll (options : PianorollOptions Hap).

(** A run of the effect: its log and its completion. *)
Definition Run (A : Type) : Type := (list Op * App.Completion A)%type.

Definition ret {A} (a : A) : Run A := ([], App.Normal a).

Definition bind {A B} (m : Run A) (k : A -> Run B) : Run B :=
  match m with
  | (log, App.Normal a) => let (log', c) := k a in (log ++ log', c)
  | (log, App.Throw e) => (log, App.Throw e)
  end.

Definition try_catch {A} (body : Run A) (handler : App.JsError -> Run A)
  : Run A :=
  match body with
  | (log, App.Normal a) => (log, App.Normal a)
  | (log, App.Throw e) => let (log', c) := handler e in (log ++ log', c)
  end.

Definition emit (op : Op) : Run unit := ([op], App.Normal tt).

Definition emits (ops : list Op) : Run unit := (ops, App.Normal tt).

(** Truthiness of a number: every number but [0], [-0] and [NaN]. *)
Definition truthy_number (n : JS.number) : bool :=
  negb (PrimFloat.is_zero n || PrimFloat.is_nan n).

(** [window.devicePixelRatio || 1] *)
Definition pixelRatio (devicePixelRatio : option JS.number) : JS.number :=
  match devicePixelRatio with
  | Some d => if truthy_number d then d else 1
  | None => 1
  end.

(** The options of the overlay: the haps of the query and the current
    time, the rest fixed. *)
Definition overlayOptions (hs : list Hap) (currentTime : JS.number)
  : PianorollOptions Hap :=
  {| haps := hs;
     time := currentTime;
     drawTime := (-2, 2);
     cycles := 4;
     playhead := 0.5;
     fold := 1;
     labels := true;
     fill := 0.8;
     fillActive := 1;
     strokeActive := 1;
     active := "#8b5cf6";
     inactive := "#374151";
     background := "transparent";
     playheadColor := "#ffffff";
     fontFamily := "monospace";
     autorange := 1;
     vertical := 0 |}.

Local Notation "x <- m ;; k" := (bind m (fun x => k))
  (at level 61, m at next level, right associativity).
Local Notation "m ;; k" := (bind m (fun _ => k))
  (at level 61, right associativity).

Section Effect.

(** The surroundings of a render: the canvas the ref points to, if any, the
    device pixel ratio, and the external [drawPianoroll]; then the props
    ([currentTime] defaults to 0). *)
Variable canvasRef : option Canvas.
Variable devicePixelRatio : option JS.number.
Variable drawPianoroll : PianorollOptions Hap -> App.Completion unit.
Variable data : list PunchcardData.
Variable isPlaying : bool.
Variable pattern : option Pattern.
Variable currentTimeProp : option JS.number.

Definition currentTime : JS.number :=
  match currentTimeProp with
  | Some t => t
  | None => 0
  end.

(** The optional overlay: the part of the effect under [try]/[catch]. *)
Definition overlay
           (query : JS.number -> JS.number -> App.Completion (option (list Hap)))
  : Run unit :=
  try_catch
    (let from := JS.Math_max 0 (currentTime - 2) in
     let to := currentTime + 2 in
     queried <- ([callQueryArc from to], query from to) ;;
     emit (consoleLog "Strudel haps:") ;;
     match queried with
     | Some (h :: rest) =>
         ([callDrawPianoroll (overlayOptions (h :: rest) currentTime)],
          drawPianoroll (overlayOptions (h :: rest) currentTime))
     | _ => ret tt
     end)
    (fun error => emit (consoleWarn "Error with Strudel drawPianoroll:" error)).

(** The body of the [useEffect]. *)
Definition effect : Run unit :=
  match canvasRef with
  | None => ret tt
  | Some canvas =>
      let rect := boundingClientRect canvas in
      if (width rect =? 0) || (height rect =? 0) then ret tt
      else
        let dpr := pixelRatio devicePixelRatio in
        emit (setCanvasWidth (width rect * dpr)) ;;
        emit (setCanvasHeight (height rect * dpr)) ;;
        emit getContext ;;
        if negb (has2d canvas) then ret tt
        else
          emit (ctxScale dpr dpr) ;;
          emit (setStyleWidth (width rect)) ;;
          emit (setStyleHeight (height rect)) ;;
          emit (ctx (fillStyle (Css "#111827"))) ;;
          emit (ctx (fillRect 0 0 (width rect) (height rect))) ;;
          emit (consoleLog "Canvas rendering:") ;;
          emit (consoleLog "Drawing custom visualization:") ;;
          emits (map ctx
                     (drawCustomVisualization isPlaying data currentTime
                        (width rect) (height rect))) ;;
          match pattern with
          | Some pat =>
              match queryArc pat with
              | Some query => overlay query
              | None => ret tt
              end
          | None => ret tt
          end
  end.

End Effect.

(** The overlay's operations: the query, the external drawing, and what
    is written to the console around them. *)
Definition is_overlay_op (op : Op) : bool :=
  match op with
  | callQueryArc _ _ | callDrawPianoroll _
  | consoleLog "Strudel haps:" | consoleWarn _ _ => true
  | _ => false
  end.

Definition is_ctx (op : Op) : bool :=
  match op with
  | ctx _ | ctxScale _ _ => true
  | _ => false
  end.

(** The canvas is on screen: the ref holds an element whose box has
    neither width nor height equal to 0. *)
Definition visible (canvasRef : option Canvas) : bool :=
  match canvasRef with
  | Some canvas =>
      negb ((width (boundingClientRect canvas) =? 0)
            || (height (boundingClientRect canvas) =? 0))
  | None => false
  end.

(** The log of the effect up to the overlay, on a visible canvas that gives
    a context: resizing, background, and the custom drawing. *)
Definition coreLog (canvas : Canvas) (devicePixelRatio : option JS.number)
           (data : list PunchcardData) (isPlaying : bool)
           (currentTimeProp : option JS.number) : list Op :=
  [ setCanvasWidth
      (width (boundingClientRect canvas) * pixelRatio devicePixelRatio);
    setCanvasHeight
      (height (boundingClientRect canvas) * pixelRatio devicePixelRatio);
    getContext;
    ctxScale (pixelRatio devicePixelRatio) (pixelRatio devicePixelRatio);
    setStyleWidth (width (boundingClientRect canvas));
    setStyleHeight (height (boundingClientRect canvas));
    ctx (fillStyle (Css "#111827"));
    ctx (fillRect 0 0 (width (boundingClientRect canvas))
                  (height (boundingClientRect canvas)));
    consoleLog "Canvas rendering:";
    consoleLog "Drawing custom visualization:" ]
  ++ map ctx
         (drawCustomVisualization isPlaying data (currentTime currentTimeProp)
            (width (boundingClientRect canvas))
            (height (boundingClientRect canvas))).

(** The query of the overlay, when the [pattern] prop has one. *)
Definition queryOf (pattern : option Pattern)
  : option (JS.number -> JS.number -> App.Completion (option (list Hap))) :=
  match pattern with
  | Some pat => queryArc pat
  | None => None
  end.

End WithHaps.

Arguments setCanvasWidth {Hap} v.
Arguments setCanvasHeight {Hap} v.
Arguments getContext {Hap}.
Arguments ctxScale {Hap} x y.
Arguments setStyleWidth {Hap} px.
Arguments setStyleHeight {Hap} px.
Arguments ctx {Hap} op.
Arguments consoleLog {Hap} message.
Arguments consoleWarn {Hap} message error.
Arguments callQueryArc {Hap} from to.
Arguments callDrawPianoroll {Hap} options.
Arguments mkPattern {Hap} queryArc.

End PunchcardEffect.

(** ** Canvases and patterns to run the effect on *)

Module Stage.

Import PunchcardEffect.

Local Open Scope float_scope.

(** A canvas of 800 by 300 that gives a context, and one that does not. *)
Definition onScreen : Canvas := mkCanvas (mkDOMRect 800 300) true.
Definition noContext : Canvas := mkCanvas (mkDOMRect 800 300) false.

(** A pattern whose query answers one hap, and one whose query throws;
    haps are labels here. *)
Definition answering : Pattern string :=
  mkPattern (Some (fun _ _ => App.Normal (Some ["bd"%string]))).

Definition failing : Pattern string :=
  mkPattern (Some (fun _ _ => App.Throw (App.Error "query failed"))).

(** A [drawPianoroll] that returns. *)
Definition drawOk : PianorollOptions string -> App.Completion unit :=
  fun _ => App.Normal tt.

End Stage.

(** ** The controls of the page *)

Module Controls.

Import App.

Section Controls.

Context {Handle : Type}.

(** The [disabled] attribute of the Play All button:
    [isPlaying || patterns.filter(p => p.pattern.trim()).length === 0]. *)
Definition playDisabled (st : AppState Handle) : bool :=
  isPlaying st
  || (List.length
        (filter (fun p => JS.truthy (JS.trim (pattern p))) (patterns st)) =? 0)%nat.

(** The [disabled] attribute of the Stop All button: [!isPlaying]. *)
Definition stopDisabled (st : AppState Handle) : bool :=
  negb (isPlaying st).

(** Handlers that only edit the store or the volume: the Add Pattern
    button, the two text inputs of a card and the slider. *)
Definition is_edit (a : @Action) : bool :=
  match a with
  | AddPattern | UpdatePattern _ _ _ | ChangeVolume _ => true
  | _ => false
  end.

(** Calls into the engine. *)
Definition is_engine_call (ef : Effect Handle) : bool :=
  match ef with
  | CallS _ | CallGain _ _ | CallPlay _ | CallStop _ | CallHush => true
  | _ => false
  end.

(** The two calls that stop sound: [.stop] and [hush]. *)
Definition is_stop_call (ef : Effect Handle) : bool :=
  match ef with
  | CallStop _ | CallHush => true
  | _ => false
  end.

End Controls.

End Controls.

(** * Properties of the [App] component *)

Section AppProperties.

Import App.

Context {Handle : Type}.

Implicit Types (engine : Engine Handle) (st : AppState Handle).

(** ** How a run of [createAndPlayPattern] and of [playAll] unfolds *)

Lemma combinedText_none st :
  combinedText st = None <-> validPatterns st = [].
Proof.
  unfold combinedText.
  destruct (validPatterns st) as [|p [|q rest]]; split; congruence.
Qed.

Lemma createAndPlayPattern_idle engine st :
  validPatterns st = [] ->
  createAndPlayPattern engine st = ([], Normal None).
Proof.
  intros Hnil. unfold createAndPlayPattern. rewrite Hnil. reflexivity.
Qed.

Lemma createAndPlayPattern_cases engine st text :
  combinedText st = Some text ->
  createAndPlayPattern engine st =
    match s engine text with
    | Throw e =>
        ([CallS text; ConsoleError "Error creating pattern:" e], Normal None)
    | Normal c =>
        match gain engine c (volumeRef st) with
        | Throw e =>
            ([CallS text; CallGain c (volumeRef st);
              ConsoleError "Error creating pattern:" e], Normal None)
        | Normal h =>
            ([CallS text; CallGain c (volumeRef st)], Normal (Some h))
        end
    end.
Proof.
  unfold combinedText, createAndPlayPattern.
  destruct (validPatterns st) as [|p [|q rest]]; intros Htext;
    inversion Htext; subst; clear Htext; cbn;
    (destruct (s engine _) as [c|e]; cbn; [|reflexivity]);
    destruct (gain engine c (volumeRef st)) as [h|e]; reflexivity.
Qed.

Lemma playAll_idle engine st :
  validPatterns st = [] ->
  playAll engine st = ([Alert "No valid patterns to play"], Normal tt).
Proof.
  intros Hnil. unfold playAll.
  rewrite (createAndPlayPattern_idle engine st Hnil). reflexivity.
Qed.

Lemma playAll_cases engine st text :
  combinedText st = Some text ->
  playAll engine st =
    match s engine text with
    | Throw e =>
        ([CallS text; ConsoleError "Error creating pattern:" e;
          Alert "No valid patterns to play"], Normal tt)
    | Normal c =>
        match gain engine c (volumeRef st) with
        | Throw e =>
            ([CallS text; CallGain c (volumeRef st);
              ConsoleError "Error creating pattern:" e;
              Alert "No valid patterns to play"], Normal tt)
        | Normal h =>
            match play engine h with
            | Throw e =>
                ([CallS text; CallGain c (volumeRef st); CallPlay h;
                  ConsoleError "Error playing patterns:" e;
                  Alert "Error playing patterns. Please check your syntax."],
                 Normal tt)
            | Normal _ =>
                ([CallS text; CallGain c (volumeRef st); CallPlay h;
                  SetCombinedPattern (Some h); SetIsPlaying true],
                 Normal tt)
            end
        end
    end.
Proof.
  intros Htext. unfold playAll.
  rewrite (createAndPlayPattern_cases engine _ Htext).
  destruct (s engine text) as [c|e]; [|reflexivity].
  destruct (gain engine c (volumeRef st)) as [h|e]; [|reflexivity].
  cbn. unfold call_play.
  destruct (play engine h) as [[]|e]; reflexivity.
Qed.

(** A render that follows a handler which queued no update changes
    nothing in a settled state. *)
Lemma render_settled st log :
  settled st ->
  forallb (fun ef => negb (is_setter ef)) log = true ->
  render st log = st.
Proof.
  intros [Hp Hv] Hlog.
  assert (Hfold : fold_left apply log st = st).
  { induction log as [|ef log IH]; [reflexivity|].
    cbn in Hlog. apply andb_true_iff in Hlog as [Hef Hrest].
    cbn. destruct ef; cbn in Hef; try discriminate; auto. }
  unfold render. rewrite Hfold.
  destruct st; cbn in *; subst; reflexivity.
Qed.

Lemma dispatch_settled engine a st : settled (dispatch engine a st).
Proof. split; reflexivity. Qed.

(** Every state the page can reach is settled: the hypothesis [settled] of
    the theorems below excludes no state of the running page. *)
Lemma reachable_settled st : reachable st -> settled st.
Proof.
  destruct 1 as [|engine a st _ _]; [split; reflexivity|apply dispatch_settled].
Qed.

Lemma filter_nil_of_all_false {A} (f : A -> bool) (l : list A) :
  (forall x, In x l -> f x = false) -> filter f l = [].
Proof.
  induction l as [|x l IH]; intros Hall; [reflexivity|].
  cbn. rewrite (Hall x (or_introl eq_refl)).
  apply IH. intros y Hy. apply Hall. right. exact Hy.
Qed.

Lemma truthy_trim_iff (text : string) :
  JS.truthy (JS.trim text) = true <-> JS.trim text <> "".
Proof.
  destruct (JS.trim text); cbn; split; congruence.
Qed.

Lemma validPatterns_settled st :
  settled st ->
  validPatterns st =
    filter (fun p => JS.truthy (JS.trim (pattern p))) (patterns st).
Proof. intros [Hp _]. unfold validPatterns. rewrite Hp. reflexivity. Qed.

Lemma validPatterns_inhabited st :
  settled st ->
  (exists p, In p (patterns st) /\ JS.trim (pattern p) <> "") ->
  exists text, combinedText st = Some text.
Proof.
  intros Hst [p [Hin Htrim]].
  destruct (combinedText st) as [text|] eqn:Htext; [eauto|].
  apply combinedText_none in Htext.
  rewrite (validPatterns_settled Hst) in Htext.
  assert (Hp : In p (filter (fun p => JS.truthy (JS.trim (pattern p)))
                            (patterns st))).
  { apply filter_In. split; [exact Hin|]. now apply truthy_trim_iff. }
  rewrite Htext in Hp. destruct Hp.
Qed.

(** ** Playing *)

(** C2.  When no entry of the pattern list has a non-empty text, [playAll]
    leaves the whole state as it was (after the render that follows it,
    patterns, volume, playing flag and session handle are the ones before)
    and makes no call to the compiler [s]: all it does is raise the alert
    that refuses playback. *)
Theorem playAll_without_text_is_refused engine st :
  settled st ->
  (forall p, In p (patterns st) -> pattern p = "") ->
  dispatch engine PlayAll st = st /\
  filter is_compile (effects (playAll engine st)) = [] /\
  playAll engine st = ([Alert "No valid patterns to play"], Normal tt).
Proof.
  intros Hst Hempty.
  assert (Hnil : validPatterns st = []).
  { rewrite (validPatterns_settled Hst).
    apply filter_nil_of_all_false. intros p Hin.
    rewrite (Hempty p Hin). reflexivity. }
  pose proof (playAll_idle engine st Hnil) as Hrun.
  split; [|split].
  - unfold dispatch. cbn [handle]. rewrite Hrun.
    apply render_settled; [exact Hst|reflexivity].
  - rewrite Hrun. reflexivity.
  - exact Hrun.
Qed.

(** C3.  Whenever a call that [playAll] makes to the compiler ([s], then
    [.gain]) or to the player ([.play]) throws, the error does not leave
    [playAll], an alert is shown to the user, no state setter is called,
    and the state after the following render is the state before: the
    playing flag and the session handle are untouched (still false and
    null when they were). *)
Theorem playAll_failure_is_reported engine st :
  settled st ->
  existsb (raises engine) (effects (playAll engine st)) = true ->
  completion (playAll engine st) = Normal tt /\
  existsb is_alert (effects (playAll engine st)) = true /\
  filter is_setter (effects (playAll engine st)) = [] /\
  dispatch engine PlayAll st = st /\
  isPlaying (dispatch engine PlayAll st) = isPlaying st /\
  combinedPattern (dispatch engine PlayAll st) = combinedPattern st.
Proof.
  intros Hst Hraise.
  assert (Hquiet :
    completion (playAll engine st) = Normal tt /\
    existsb is_alert (effects (playAll engine st)) = true /\
    filter is_setter (effects (playAll engine st)) = [] /\
    forallb (fun ef => negb (is_setter ef)) (effects (playAll engine st)) = true).
  { destruct (combinedText st) as [text|] eqn:Htext.
    - rewrite (playAll_cases engine st Htext) in *.
      destruct (s engine text) as [c|e] eqn:Hs;
        [|repeat split; reflexivity].
      destruct (gain engine c (volumeRef st)) as [h|e] eqn:Hg;
        [|repeat split; reflexivity].
      destruct (play engine h) as [u|e] eqn:Hp;
        [|repeat split; reflexivity].
      cbn in Hraise. rewrite Hs, Hg, Hp in Hraise. discriminate.
    - apply combinedText_none in Htext.
      rewrite (playAll_idle engine st Htext) in Hraise. discriminate. }
  destruct Hquiet as (Hc & Ha & Hs & Hn).
  assert (Hsame : dispatch engine PlayAll st = st).
  { unfold dispatch. cbn [handle]. now apply render_settled. }
  rewrite Hsame. repeat split; assumption.
Qed.

(** C1, as the code has it.  [playAll] never throws to its caller: its
    completion is normal whatever the pattern list and whatever the engine
    answers.  And when the page is stopped, at least one entry of the
    pattern list has a text that is non-empty once trimmed of white space,
    and none of the engine calls of the invocation throws, [playAll] calls
    [setIsPlaying] exactly once, with [true], and the page is playing
    after the render that follows. *)
Theorem playAll_starts_once engine st :
  completion (playAll engine st) = Normal tt /\
  (settled st ->
   isPlaying st = false ->
   (exists p, In p (patterns st) /\ JS.trim (pattern p) <> "") ->
   existsb (raises engine) (effects (playAll engine st)) = false ->
   filter is_setIsPlaying (effects (playAll engine st)) = [SetIsPlaying true] /\
   isPlaying (dispatch engine PlayAll st) = true).
Proof.
  split.
  - destruct (combinedText st) as [text|] eqn:Htext.
    + rewrite (playAll_cases engine st Htext).
      destruct (s engine text) as [c|e]; [|reflexivity].
      destruct (gain engine c (volumeRef st)) as [h|e]; [|reflexivity].
      destruct (play engine h) as [u|e]; reflexivity.
    + apply combinedText_none in Htext.
      rewrite (playAll_idle engine st Htext). reflexivity.
  - intros Hst Hstopped Hvalid Hquiet.
    destruct (validPatterns_inhabited Hst Hvalid) as [text Htext].
    unfold dispatch. cbn [handle].
    rewrite (playAll_cases engine st Htext) in *.
    destruct (s engine text) as [c|e] eqn:Hs;
      [|cbn in Hquiet; rewrite Hs in Hquiet; discriminate].
    destruct (gain engine c (volumeRef st)) as [h|e] eqn:Hg;
      [|cbn in Hquiet; rewrite Hs, Hg in Hquiet; discriminate].
    destruct (play engine h) as [u|e] eqn:Hp;
      [|cbn in Hquiet; rewrite Hs, Hg, Hp in Hquiet; discriminate].
    split; reflexivity.
Qed.

(** C4, as the code has it.  The entries that count are those whose text
    is non-empty once trimmed of white space.  When there is exactly one,
    the combiner makes one call to the compiler, on that entry's text (as
    typed, untrimmed); when there are two or more, it makes one call, on
    their texts joined in list order by a comma and a space.  In both
    cases, when the compiler returns a pattern, the very next thing the
    combiner does is to call [.gain] on that pattern with the master volume
    [volume[0]], and what the combiner returns is what [.gain] returned
    ([null] when [.gain] threw).  Conversely a pattern that the combiner
    returns always comes out of such a [.gain] call. *)
Theorem combiner_compiles_valid_texts engine st :
  settled st ->
  (forall p,
      filter (fun p => JS.truthy (JS.trim (pattern p))) (patterns st) = [p] ->
      filter is_compile (effects (createAndPlayPattern engine st))
      = [CallS (pattern p)]) /\
  (2 <= List.length
          (filter (fun p => JS.truthy (JS.trim (pattern p))) (patterns st)) ->
   filter is_compile (effects (createAndPlayPattern engine st))
   = [CallS (JS.join ", "
        (map pattern
           (filter (fun p => JS.truthy (JS.trim (pattern p))) (patterns st))))]) /\
  (forall text c,
      In (CallS text) (effects (createAndPlayPattern engine st)) ->
      s engine text = Normal c ->
      (exists rest,
          effects (createAndPlayPattern engine st)
          = CallS text :: CallGain c (nth_error (volume st) 0) :: rest) /\
      completion (createAndPlayPattern engine st)
      = match gain engine c (nth_error (volume st) 0) with
        | Normal h => Normal (Some h)
        | Throw _ => Normal None
        end) /\
  (forall h,
      completion (createAndPlayPattern engine st) = Normal (Some h) ->
      exists text c,
        effects (createAndPlayPattern engine st)
        = [CallS text; CallGain c (nth_error (volume st) 0)] /\
        s engine text = Normal c /\
        gain engine c (nth_error (volume st) 0) = Normal h).
Proof.
  intros Hst.
  pose proof (validPatterns_settled Hst) as Hvalid.
  destruct Hst as [_ Hvol].
  assert (Hcompile : forall text,
    combinedText st = Some text ->
    filter is_compile (effects (createAndPlayPattern engine st)) = [CallS text]).
  { intros text Htext.
    rewrite (createAndPlayPattern_cases engine st Htext).
    destruct (s engine text) as [c|e]; [|reflexivity].
    destruct (gain engine c (volumeRef st)) as [h|e]; reflexivity. }
  split; [|split; [|split]].
  - intros p Hone. apply Hcompile.
    unfold combinedText. rewrite Hvalid, Hone. reflexivity.
  - intros Hmany. apply Hcompile.
    unfold combinedText. rewrite Hvalid.
    destruct (filter _ (patterns st)) as [|p [|q rest]];
      cbn in Hmany; [lia|lia|reflexivity].
  - intros text c Hin Hs. rewrite <- Hvol.
    destruct (combinedText st) as [text0|] eqn:Htext.
    + pose proof (Hcompile text0 eq_refl) as Hone.
      assert (Heq : text = text0).
      { assert (Hin' : In (CallS text)
                          (filter is_compile
                                  (effects (createAndPlayPattern engine st)))).
        { apply filter_In. split; [exact Hin|reflexivity]. }
        rewrite Hone in Hin'. destruct Hin' as [Heq|[]]. congruence. }
      subst text0.
      rewrite (createAndPlayPattern_cases engine st Htext), Hs.
      destruct (gain engine c (volumeRef st)) as [h|e];
        (split; [eexists; reflexivity|reflexivity]).
    + apply combinedText_none in Htext.
      rewrite (createAndPlayPattern_idle engine st Htext) in Hin.
      destruct Hin.
  - intros h Hret.
    destruct (combinedText st) as [text|] eqn:Htext.
    + rewrite (createAndPlayPattern_cases engine st Htext) in *.
      rewrite <- Hvol.
      destruct (s engine text) as [c|e] eqn:Hs; [|discriminate].
      destruct (gain engine c (volumeRef st)) as [h'|e] eqn:Hg;
        [|discriminate].
      cbn in Hret. inversion Hret; subst.
      exists text, c. repeat split; assumption.
    + apply combinedText_none in Htext.
      rewrite (createAndPlayPattern_idle engine st Htext) in Hret.
      discriminate.
Qed.

(** ** Stopping *)

Lemma stopAll_run engine st :
  stopAll engine st =
    (patternStop engine st
       ++ [CallHush; SetIsPlaying false; SetCombinedPattern None],
     Normal tt).
Proof.
  unfold stopAll, patternStop, call_stop_opt.
  destruct (combinedPattern st) as [h|]; [|reflexivity].
  destruct (has_stop engine h); reflexivity.
Qed.

(** The per-pattern stop queues no state update. *)
Lemma fold_patternStop engine st st' rest :
  fold_left apply (patternStop engine st ++ rest) st'
  = fold_left apply rest st'.
Proof.
  unfold patternStop.
  destruct (combinedPattern st) as [h|]; [|reflexivity].
  destruct (has_stop engine h); reflexivity.
Qed.

(** C5, as the code has it.  [stopAll] performs, in this order: the
    per-pattern stop on the compiled pattern of the session when there is
    one and it carries a [.stop] method (the call is the optional
    [.stop?.()]: on a pattern without the method, and when no pattern is
    held, it is skipped), the global [hush], [setIsPlaying(false)] and
    [setCombinedPattern(null)]; after the render that follows the page is
    stopped with no session handle; and stopping twice, in two events or
    twice in one, leaves the state that stopping once leaves. *)
Theorem stopAll_stops_then_clears engine st :
  stopAll engine st =
    (patternStop engine st
       ++ [CallHush; SetIsPlaying false; SetCombinedPattern None],
     Normal tt) /\
  (forall h,
      combinedPattern st = Some h -> has_stop engine h = true ->
      effects (stopAll engine st)
      = [CallStop h; CallHush; SetIsPlaying false; SetCombinedPattern None]) /\
  (forall h,
      combinedPattern st = Some h -> has_stop engine h = false ->
      effects (stopAll engine st)
      = [CallHush; SetIsPlaying false; SetCombinedPattern None]) /\
  (combinedPattern st = None ->
   effects (stopAll engine st)
   = [CallHush; SetIsPlaying false; SetCombinedPattern None]) /\
  isPlaying (dispatch engine StopAll st) = false /\
  combinedPattern (dispatch engine StopAll st) = None /\
  (forall engine',
      dispatch engine' StopAll (dispatch engine StopAll st)
      = dispatch engine StopAll st) /\
  render st (effects (stopAll engine st) ++ effects (stopAll engine st))
  = render st (effects (stopAll engine st)).
Proof.
  assert (Hstep : forall engine0 st0,
    dispatch engine0 StopAll st0
    = mkAppState (patterns st0) (volume st0) (nextId st0) false None
                 (patterns st0) (nth_error (volume st0) 0)).
  { intros engine0 st0. unfold dispatch, render. cbn [handle].
    rewrite stopAll_run. cbn [fst]. rewrite fold_patternStop. reflexivity. }
  split; [apply stopAll_run|].
  split; [intros h Hh Hstop; rewrite stopAll_run; unfold patternStop;
          rewrite Hh, Hstop; reflexivity|].
  split; [intros h Hh Hstop; rewrite stopAll_run; unfold patternStop;
          rewrite Hh, Hstop; reflexivity|].
  split; [intros Hh; rewrite stopAll_run; unfold patternStop;
          rewrite Hh; reflexivity|].
  split; [rewrite Hstep; reflexivity|].
  split; [rewrite Hstep; reflexivity|].
  split.
  - intros engine'. rewrite (Hstep engine' _), (Hstep engine st). reflexivity.
  - unfold render, effects. rewrite stopAll_run. cbn [fst].
    rewrite <- app_assoc, !fold_patternStop. cbn [fold_left app].
    rewrite fold_patternStop. reflexivity.
Qed.

(** ** The pattern store *)

Lemma removePattern_run engine st id0 :
  removePattern engine st id0 =
    ((if isPlaying st then effects (stopAll engine st) else [])
       ++ [SetPatterns (filter (fun p => negb (id p =? id0)%string) (patterns st))],
     Normal tt).
Proof.
  unfold removePattern, effects.
  destruct (isPlaying st); [|reflexivity].
  rewrite stopAll_run. reflexivity.
Qed.

(** C6.  When the page is playing, [removePattern], whatever the id it is
    given (so in particular on an entry that is being played), first runs
    [stopAll] (per-pattern stop, [hush], [setIsPlaying(false)],
    [setCombinedPattern(null)]) and only then calls [setPatterns] with the
    list filtered of that id; after the render that follows, the page is
    stopped, holds no session handle, and the entry is gone. *)
Theorem removePattern_stops_first engine st id0 :
  isPlaying st = true ->
  effects (removePattern engine st id0) =
    patternStop engine st
      ++ [CallHush; SetIsPlaying false; SetCombinedPattern None;
          SetPatterns (filter (fun p => negb (id p =? id0)%string) (patterns st))] /\
  isPlaying (dispatch engine (RemovePattern id0) st) = false /\
  combinedPattern (dispatch engine (RemovePattern id0) st) = None /\
  patterns (dispatch engine (RemovePattern id0) st)
  = filter (fun p => negb (id p =? id0)%string) (patterns st).
Proof.
  intros Hplaying.
  assert (Hlog : effects (removePattern engine st id0) =
    patternStop engine st
      ++ [CallHush; SetIsPlaying false; SetCombinedPattern None;
          SetPatterns (filter (fun p => negb (id p =? id0)%string) (patterns st))]).
  { rewrite removePattern_run, Hplaying. unfold effects.
    rewrite stopAll_run. cbn [fst]. rewrite <- app_assoc. reflexivity. }
  split; [exact Hlog|].
  unfold dispatch, render. cbn [handle].
  unfold effects in Hlog. rewrite Hlog, fold_patternStop.
  repeat split; reflexivity.
Qed.

Lemma toString_inj (a b : N) : JS.toString a = JS.toString b -> a = b.
Proof.
  unfold JS.toString. intros Heq.
  apply (f_equal NilEmpty.uint_of_string) in Heq.
  rewrite !NilEmpty.usu in Heq.
  apply Unsigned.to_uint_inj. congruence.
Qed.

(** [JS.increment] against the binary64 sum, on both sides of each of its
    thresholds: small counters, the last safe integers, [2^53] and the even
    integers after it, [2^54] and beyond. *)
Lemma increment_is_the_binary64_sum :
  map (fun n => JS.N_of_double (JS.double_of_N n + 1)%float)
      [0; 3; 41; 9007199254740990; 9007199254740991; 9007199254740992;
       9007199254740994; 9007199254740996; 9007199254740998;
       18014398509481980; 18014398509481982; 18014398509481984;
       18014398509481988; 1152921504606846976]%N
  = map JS.increment
      [0; 3; 41; 9007199254740990; 9007199254740991; 9007199254740992;
       9007199254740994; 9007199254740996; 9007199254740998;
       18014398509481980; 18014398509481982; 18014398509481984;
       18014398509481988; 1152921504606846976]%N.
Proof. vm_compute. reflexivity. Qed.

(** Past the safe integers the counter sticks: [2^53 + 1] is [2^53]. *)
Lemma increment_sticks :
  JS.increment (JS.MAX_SAFE_INTEGER + 1) = (JS.MAX_SAFE_INTEGER + 1)%N.
Proof. reflexivity. Qed.

(** What an event does to the store: the pattern list and the counter. *)
Lemma dispatch_store engine a st :
  patterns (dispatch engine a st) =
    match a with
    | AddPattern =>
        patterns st
          ++ [mkPatternInput (JS.toString (nextId st)) ""
                (String.append "Pattern " (JS.toString (nextId st)))]
    | RemovePattern id0 =>
        filter (fun p => negb (id p =? id0)%string) (patterns st)
    | UpdatePattern id0 field value =>
        map (fun p => if (id p =? id0)%string
                      then withField p field value else p) (patterns st)
    | _ => patterns st
    end /\
  nextId (dispatch engine a st) =
    match a with
    | AddPattern => JS.increment (nextId st)
    | _ => nextId st
    end.
Proof.
  unfold dispatch, render.
  destruct a as [| | |id0|id0 field value|v]; cbn [handle].
  - destruct (combinedText st) as [text|] eqn:Htext.
    + rewrite (playAll_cases engine st Htext).
      destruct (s engine text) as [c|e]; [|split; reflexivity].
      destruct (gain engine c (volumeRef st)) as [h|e]; [|split; reflexivity].
      destruct (play engine h) as [u|e]; split; reflexivity.
    + apply combinedText_none in Htext.
      rewrite (playAll_idle engine st Htext). split; reflexivity.
  - rewrite stopAll_run. cbn [fst]. rewrite fold_patternStop.
    split; reflexivity.
  - split; reflexivity.
  - rewrite removePattern_run. cbn [fst]. unfold effects.
    destruct (isPlaying st); [|split; reflexivity].
    rewrite stopAll_run. cbn [fst].
    rewrite <- app_assoc, fold_patternStop. split; reflexivity.
  - split; reflexivity.
  - split; reflexivity.
Qed.

Lemma withField_keeps_id p field value :
  field <> FId -> id (withField p field value) = id p.
Proof. destruct field; intros Hf; [congruence|reflexivity|reflexivity]. Qed.

Lemma increment_safe (n : N) :
  (n <= JS.MAX_SAFE_INTEGER)%N -> JS.increment n = (n + 1)%N.
Proof.
  intros Hn. unfold JS.increment.
  destruct (N.leb_spec n JS.MAX_SAFE_INTEGER) as [_|Hgt]; [reflexivity|lia].
Qed.

Lemma increment_grows (n : N) : (n <= JS.increment n)%N.
Proof.
  unfold JS.increment.
  destruct (n <=? JS.MAX_SAFE_INTEGER)%N; [lia|].
  destruct (n <? 2 * (JS.MAX_SAFE_INTEGER + 1))%N; [|lia].
  destruct (N.even (n / 2)); lia.
Qed.

(** The counter never goes down. *)
Lemma dispatch_counter_grows engine a st :
  (nextId st <= nextId (dispatch engine a st))%N.
Proof.
  destruct (dispatch_store engine a st) as [_ Hn]. rewrite Hn.
  destruct a; try lia. apply increment_grows.
Qed.

Lemma dispatch_ids_fresh engine a st :
  fromPage a = true ->
  (nextId st <= JS.MAX_SAFE_INTEGER)%N ->
  ids_fresh st -> ids_fresh (dispatch engine a st).
Proof.
  intros Hpage Hsafe Hfresh p.
  destruct (dispatch_store engine a st) as [Hps Hn].
  rewrite Hps, Hn. clear Hps Hn.
  destruct a as [| | |id0|id0 field value|v]; try apply Hfresh.
  - rewrite (increment_safe Hsafe).
    intros Hin. apply in_app_or in Hin as [Hin|[Hnew|[]]].
    + destruct (Hfresh p Hin) as [k [Hk Hid]].
      exists k. split; [lia|exact Hid].
    + subst p. exists (nextId st). split; [lia|reflexivity].
  - intros Hin. apply filter_In in Hin as [Hin _]. now apply Hfresh.
  - intros Hin. apply in_map_iff in Hin as [q [Hq Hin]].
    destruct (Hfresh q Hin) as [k [Hk Hid]].
    exists k. split; [exact Hk|]. subst p.
    destruct (id q =? id0)%string; [|exact Hid].
    rewrite withField_keeps_id; [exact Hid|].
    destruct field; cbn in Hpage; congruence.
Qed.

(** While the counter is a safe integer, every id issued so far is below
    it. *)
Lemma reachable_ids_fresh st :
  reachable st -> (nextId st <= JS.MAX_SAFE_INTEGER)%N -> ids_fresh st.
Proof.
  induction 1 as [|engine a st Hreach IH Hpage]; intros Hsafe.
  - intros p [Hp|[Hp|[]]]; subst p.
    + exists 1%N. split; [reflexivity|reflexivity].
    + exists 2%N. split; [reflexivity|reflexivity].
  - pose proof (dispatch_counter_grows engine a st) as Hgrow.
    assert (Hsafe0 : (nextId st <= JS.MAX_SAFE_INTEGER)%N) by lia.
    apply dispatch_ids_fresh; [exact Hpage|exact Hsafe0|now apply IH].
Qed.

Lemma filter_drops_fresh (l : list PatternInput) (p : PatternInput) :
  (forall q, In q l -> id q <> id p) ->
  filter (fun q => negb (id q =? id p)%string) (l ++ [p]) = l.
Proof.
  intros Hfresh. rewrite filter_app. cbn.
  rewrite String.eqb_refl. cbn. rewrite app_nil_r.
  induction l as [|q l IH]; [reflexivity|].
  cbn. destruct (String.eqb_spec (id q) (id p)) as [Heq|Hne].
  - exfalso. apply (Hfresh q (or_introl eq_refl) Heq).
  - cbn. f_equal. apply IH. intros r Hr. apply Hfresh. right. exact Hr.
Qed.

(** C7.  In every state the page can reach, while the counter of ids is a
    safe integer (it starts at 3 and is below 2^53, where a double stops
    counting one by one), [addPattern] appends one entry, whose id is the
    decimal form of the counter, and [removePattern] on that id right after
    it gives back the pattern list of before the add: same entries, same
    order. *)
Theorem add_then_remove_restores engine1 engine2 st :
  reachable st ->
  (nextId st <= JS.MAX_SAFE_INTEGER)%N ->
  patterns (dispatch engine1 AddPattern st) =
    patterns st
      ++ [mkPatternInput (JS.toString (nextId st)) ""
            (String.append "Pattern " (JS.toString (nextId st)))] /\
  patterns
    (dispatch engine2 (RemovePattern (JS.toString (nextId st)))
       (dispatch engine1 AddPattern st))
  = patterns st.
Proof.
  intros Hreach Hsafe.
  destruct (dispatch_store engine1 AddPattern st) as [Hadd _].
  split; [exact Hadd|].
  destruct (dispatch_store engine2 (RemovePattern (JS.toString (nextId st)))
              (dispatch engine1 AddPattern st)) as [Hrm _].
  rewrite Hrm, Hadd.
  apply (filter_drops_fresh (patterns st)
           (mkPatternInput (JS.toString (nextId st)) ""
              (String.append "Pattern " (JS.toString (nextId st))))).
  intros q Hq Heq. cbn in Heq.
  destruct (reachable_ids_fresh Hreach Hsafe q Hq) as [k [Hk Hid]].
  rewrite Hid in Heq. apply toString_inj in Heq. lia.
Qed.

(** ** The session invariant *)

Ltac absurd_member :=
  repeat match goal with
         | H : In _ (_ ++ _) |- _ => apply in_app_or in H
         | H : _ \/ _ |- _ => destruct H
         | H : In _ _ |- _ => cbn in H
         | H : False |- _ => destruct H
         end;
  try discriminate.

Lemma patternStop_calls_only engine st ef :
  In ef (patternStop engine st) -> is_setter ef = false.
Proof.
  unfold patternStop.
  destruct (combinedPattern st) as [h|]; [|intros []].
  destruct (has_stop engine h); intros Hin; absurd_member.
  subst ef. reflexivity.
Qed.

Lemma dispatch_session_ok engine a st :
  session_ok st -> session_ok (dispatch engine a st).
Proof.
  unfold session_ok, dispatch, render. intros Hok.
  destruct a as [| | |id0|id0 field value|v]; cbn [handle].
  - destruct (combinedText st) as [text|] eqn:Htext.
    + rewrite (playAll_cases engine st Htext).
      destruct (s engine text) as [c|e]; [|exact Hok].
      destruct (gain engine c (volumeRef st)) as [h|e]; [|exact Hok].
      destruct (play engine h) as [u|e]; [|exact Hok].
      cbn. discriminate.
    + apply combinedText_none in Htext.
      rewrite (playAll_idle engine st Htext). exact Hok.
  - rewrite stopAll_run. cbn [fst]. rewrite fold_patternStop.
    cbn. discriminate.
  - exact Hok.
  - rewrite removePattern_run. cbn [fst]. unfold effects.
    destruct (isPlaying st) eqn:Hplaying.
    + rewrite stopAll_run. cbn [fst].
      rewrite <- app_assoc, fold_patternStop. cbn. discriminate.
    + cbn. rewrite Hplaying. discriminate.
  - exact Hok.
  - exact Hok.
Qed.

Lemma playAll_sets_flag_last engine st :
  In (SetIsPlaying true) (effects (playAll engine st)) ->
  exists pre h,
    effects (playAll engine st)
    = pre ++ [SetCombinedPattern (Some h); SetIsPlaying true].
Proof.
  destruct (combinedText st) as [text|] eqn:Htext.
  - rewrite (playAll_cases engine st Htext).
    destruct (s engine text) as [c|e];
      [|intros Hin; exfalso; absurd_member].
    destruct (gain engine c (volumeRef st)) as [h|e];
      [|intros Hin; exfalso; absurd_member].
    destruct (play engine h) as [u|e];
      [|intros Hin; exfalso; absurd_member].
    intros _.
    exists [CallS text; CallGain c (volumeRef st); CallPlay h], h.
    reflexivity.
  - apply combinedText_none in Htext.
    rewrite (playAll_idle engine st Htext).
    intros Hin; exfalso; absurd_member.
Qed.

Lemma only_playAll_sets_flag engine st a :
  In (SetIsPlaying true) (effects (handle engine st a)) -> a = PlayAll.
Proof.
  destruct a as [| | |id0|id0 field value|v]; cbn [handle];
    [reflexivity| | | | |]; intros Hin; exfalso.
  - rewrite stopAll_run in Hin. unfold effects in Hin. cbn [fst] in Hin.
    apply in_app_or in Hin as [Hin|Hin];
      [apply patternStop_calls_only in Hin; discriminate|absurd_member].
  - absurd_member.
  - rewrite removePattern_run in Hin. unfold effects in Hin.
    cbn [fst] in Hin.
    destruct (isPlaying st); [|absurd_member].
    rewrite stopAll_run in Hin. cbn [fst] in Hin.
    apply in_app_or in Hin as [Hin|Hin]; [|absurd_member].
    apply in_app_or in Hin as [Hin|Hin];
      [apply patternStop_calls_only in Hin; discriminate|absurd_member].
  - absurd_member.
  - absurd_member.
Qed.

(** C10.  A playing page always holds a compiled pattern.  Every event,
    whatever the engine answers, takes a state in which the playing flag
    implies a non-null session handle to another such state; so does every
    state the page can reach.  [playAll] is the only handler that calls
    [setIsPlaying(true)], and when it does, the call comes last, right
    after [setCombinedPattern] with the compiled pattern. *)
Theorem playing_implies_session :
  (forall engine a st, session_ok st -> session_ok (dispatch engine a st)) /\
  (forall st, reachable st -> isPlaying st = true -> combinedPattern st <> None) /\
  (forall engine st a,
      In (SetIsPlaying true) (effects (handle engine st a)) -> a = PlayAll) /\
  (forall engine st,
      In (SetIsPlaying true) (effects (playAll engine st)) ->
      exists pre h,
        effects (playAll engine st)
        = pre ++ [SetCombinedPattern (Some h); SetIsPlaying true]).
Proof.
  split; [exact dispatch_session_ok|].
  split; [|split; [exact only_playAll_sets_flag|exact playAll_sets_flag_last]].
  intros st Hreach.
  induction Hreach as [|engine a st Hreach IH Hpage].
  - discriminate.
  - apply dispatch_session_ok. exact IH.
Qed.

End AppProperties.

(** * Properties of the [Punchcard] drawing *)

Section PunchcardProperties.

Import Punchcard.

Local Open Scope float_scope.

(** C8.  On an empty event list, whatever the playing flag, the current
    time and the size of the canvas, the routine draws one text, the
    placeholder, and fills exactly four rectangles, the sample bars (a
    quarter of the width apart, at 0.7 of the height, in the translucent
    purple of increasing opacity); it builds no path (no grid line, no
    playhead), sets no shadow (no event), and draws no track label. *)
Theorem empty_events_draw_placeholder
        (isPlaying : bool) (now width height : JS.number) :
  texts (drawCustomVisualization isPlaying [] now width height)
  = ["No pattern data available"%string] /\
  List.length (rects (drawCustomVisualization isPlaying [] now width height)) = 4%nat /\
  map geometry (rects (drawCustomVisualization isPlaying [] now width height))
  = [ (0 * (width / 4) + 10, height * 0.7, width / 4 - 20, 20);
      (1 * (width / 4) + 10, height * 0.7, width / 4 - 20, 20);
      (2 * (width / 4) + 10, height * 0.7, width / 4 - 20, 20);
      (3 * (width / 4) + 10, height * 0.7, width / 4 - 20, 20) ] /\
  map (fun r => paint_fill (rect_paint r))
      (rects (drawCustomVisualization isPlaying [] now width height))
  = [ CssNum "rgba(139, 92, 246, " (0.3 + 0 * 0.1) ")";
      CssNum "rgba(139, 92, 246, " (0.3 + 1 * 0.1) ")";
      CssNum "rgba(139, 92, 246, " (0.3 + 2 * 0.1) ")";
      CssNum "rgba(139, 92, 246, " (0.3 + 3 * 0.1) ")" ] /\
  filter is_path_op (drawCustomVisualization isPlaying [] now width height) = [] /\
  filter is_shadow_op (drawCustomVisualization isPlaying [] now width height) = [].
Proof.
  repeat split; reflexivity.
Qed.

(** C9.  For the events at times 0 ("bd"), 1 ("sd") and 0.5 ("hh"), the
    current time 0.05 and a playing page, the highlight test holds of the
    first event and of neither of the others; and on a canvas of any size
    the rectangle of "bd" is filled in its full colour under a shadow blur
    (the glow), while those of "sd" and "hh" are filled in their colour
    at half opacity (suffix 80) with no blur.  The other three rectangles
    are the track backgrounds. *)
Theorem example_highlights_first_event :
  map (isActive true 0.05) exampleEvents = [true; false; false] /\
  forall width height : JS.number,
    looks (drawCustomVisualization true exampleEvents 0.05 width height)
    = [ (Css "rgba(255, 255, 255, 0.05)", false);
        (Css "#8b5cf6", true);
        (Css "rgba(255, 255, 255, 0.05)", false);
        (Css "#06b6d480", false);
        (Css "rgba(255, 255, 255, 0.05)", false);
        (Css "#10b98180", false) ].
Proof.
  split; [vm_compute; reflexivity|].
  intros width height. vm_compute. reflexivity.
Qed.

End PunchcardProperties.

(** * The theorems at work on concrete pages *)

Import App Engines.

(** C1 does not hold as first stated, for two reasons.  A text made of
    white space is non-empty, yet the page holding only such a text does
    not start playing, even on an engine that accepts everything; and the
    first page, whose two texts are valid, does not start playing on an
    engine whose compiler throws. *)
Lemma playAll_may_not_start :
  ((exists p, In p (patterns (pageOf [" "])) /\ pattern p <> "") /\
   isPlaying (pageOf [" "]) = false /\
   filter is_setIsPlaying (effects (playAll working (pageOf [" "]))) = [] /\
   isPlaying (dispatch working PlayAll (pageOf [" "])) = false) /\
  ((exists p, In p (patterns (@initial Compiled)) /\ pattern p <> "") /\
   isPlaying (@initial Compiled) = false /\
   filter is_setIsPlaying (effects (playAll rejecting initial)) = [] /\
   isPlaying (dispatch rejecting PlayAll initial) = false).
Proof.
  split; (split; [|repeat split; reflexivity]).
  - exists (mkPatternInput " " " " " "). split; [left; reflexivity|discriminate].
  - exists (mkPatternInput "1" "bd sd [~ bd] sd" "Kick & Snare").
    split; [left; reflexivity|discriminate].
Qed.

(** The first page starts playing on a working engine. *)
Lemma playAll_starts_once_witness :
  settled (@initial Compiled) /\
  isPlaying (@initial Compiled) = false /\
  (exists p, In p (patterns (@initial Compiled)) /\ JS.trim (pattern p) <> "") /\
  existsb (raises working) (effects (playAll working initial)) = false /\
  filter is_setIsPlaying (effects (playAll working initial)) = [SetIsPlaying true] /\
  isPlaying (dispatch working PlayAll initial) = true.
Proof.
  assert (Hst : settled (@initial Compiled)) by (split; reflexivity).
  assert (Hvalid : exists p, In p (patterns (@initial Compiled))
                             /\ JS.trim (pattern p) <> "").
  { exists (mkPatternInput "2" "hh*8" "Hi-hats").
    split; [right; left; reflexivity|discriminate]. }
  split; [exact Hst|]. split; [reflexivity|]. split; [exact Hvalid|].
  split; [reflexivity|].
  exact (proj2 (playAll_starts_once working initial)
               Hst eq_refl Hvalid eq_refl).
Defined.

(** A page of two empty texts refuses to play. *)
Lemma playAll_without_text_is_refused_witness :
  settled (pageOf [""; ""]) /\
  (forall p, In p (patterns (pageOf [""; ""])) -> pattern p = "") /\
  dispatch working PlayAll (pageOf [""; ""]) = pageOf [""; ""] /\
  filter is_compile (effects (playAll working (pageOf [""; ""]))) = [] /\
  playAll working (pageOf [""; ""])
  = ([Alert "No valid patterns to play"], Normal tt).
Proof.
  assert (Hst : settled (pageOf [""; ""])) by (split; reflexivity).
  assert (Hempty : forall p, In p (patterns (pageOf [""; ""])) -> pattern p = "").
  { intros p [Hp|[Hp|[]]]; subst p; reflexivity. }
  split; [exact Hst|]. split; [exact Hempty|].
  exact (@playAll_without_text_is_refused _ working _ Hst Hempty).
Defined.

(** The first page on an engine whose player throws: an alert, and the
    page as before. *)
Lemma playAll_failure_is_reported_witness :
  settled (@initial Compiled) /\
  existsb (raises silent) (effects (playAll silent initial)) = true /\
  completion (playAll silent initial) = Normal tt /\
  existsb is_alert (effects (playAll silent initial)) = true /\
  filter is_setter (effects (playAll silent initial)) = [] /\
  dispatch silent PlayAll initial = initial /\
  isPlaying (dispatch silent PlayAll initial) = false /\
  combinedPattern (dispatch silent PlayAll initial) = None.
Proof.
  assert (Hst : settled (@initial Compiled)) by (split; reflexivity).
  split; [exact Hst|]. split; [reflexivity|].
  exact (@playAll_failure_is_reported _ silent _ Hst eq_refl).
Defined.

(** C4 does not hold as first stated: of the two texts [" "] and ["bd"],
    both non-empty, the combiner compiles ["bd"] alone and not their join
    [" , bd"]. *)
Lemma combiner_skips_blank_text :
  filter (fun p => negb (pattern p =? "")%string) (patterns (pageOf [" "; "bd"]))
  = patterns (pageOf [" "; "bd"]) /\
  JS.join ", " (map pattern (patterns (pageOf [" "; "bd"]))) = " , bd" /\
  filter is_compile (effects (createAndPlayPattern working (pageOf [" "; "bd"])))
  = [CallS "bd"] /\
  filter is_compile (effects (createAndPlayPattern working (pageOf [" "; "bd"])))
  <> [CallS " , bd"].
Proof.
  repeat split; try reflexivity. discriminate.
Qed.

(** Of the texts ["bd"], [" "] and ["hh*8"] the combiner compiles the
    first and the last, joined. *)
Lemma combiner_compiles_valid_texts_witness :
  settled (pageOf ["bd"; " "; "hh*8"]) /\
  filter is_compile
    (effects (createAndPlayPattern working (pageOf ["bd"; " "; "hh*8"])))
  = [CallS "bd, hh*8"] /\
  In (CallS "bd, hh*8")
     (effects (createAndPlayPattern working (pageOf ["bd"; " "; "hh*8"]))) /\
  s working "bd, hh*8" = Normal (Pat "bd, hh*8" None) /\
  (exists rest,
      effects (createAndPlayPattern working (pageOf ["bd"; " "; "hh*8"]))
      = CallS "bd, hh*8"
          :: CallGain (Pat "bd, hh*8" None) (Some 0.7%float) :: rest) /\
  completion (createAndPlayPattern working (pageOf ["bd"; " "; "hh*8"]))
  = Normal (Some (Pat "bd, hh*8" (Some 0.7%float))).
Proof.
  assert (Hst : settled (pageOf ["bd"; " "; "hh*8"])) by (split; reflexivity).
  assert (Hin : In (CallS "bd, hh*8")
     (effects (createAndPlayPattern working (pageOf ["bd"; " "; "hh*8"]))))
    by (left; reflexivity).
  pose proof (@combiner_compiles_valid_texts _ working _ Hst) as H.
  split; [exact Hst|].
  split; [exact (proj1 (proj2 H) (le_n 2))|].
  split; [exact Hin|]. split; [reflexivity|].
  exact (proj1 (proj2 (proj2 H)) "bd, hh*8" (Pat "bd, hh*8" None) Hin eq_refl).
Defined.

(** C5 does not hold as first stated: the first page, playing on an engine
    whose patterns carry no [.stop] method, holds a compiled pattern, and
    [stopAll] makes no per-pattern stop on it: it goes straight to
    [hush]. *)
Lemma stopAll_skips_a_missing_stop :
  combinedPattern (dispatch stopless PlayAll initial)
  = Some (Pat "bd sd [~ bd] sd, hh*8" (Some 0.7%float)) /\
  effects (stopAll stopless (dispatch stopless PlayAll initial))
  = [CallHush; SetIsPlaying false; SetCombinedPattern None] /\
  ~ In (CallStop (Pat "bd sd [~ bd] sd, hh*8" (Some 0.7%float)))
       (effects (stopAll stopless (dispatch stopless PlayAll initial))).
Proof.
  split; [reflexivity|]. split; [reflexivity|].
  intros [H|[H|[H|[]]]]; discriminate H.
Qed.

(** Stopping the first page while it plays on an engine whose patterns
    carry [.stop]. *)
Lemma stopAll_stops_then_clears_witness :
  combinedPattern (dispatch working PlayAll initial)
  = Some (Pat "bd sd [~ bd] sd, hh*8" (Some 0.7%float)) /\
  has_stop working (Pat "bd sd [~ bd] sd, hh*8" (Some 0.7%float)) = true /\
  effects (stopAll working (dispatch working PlayAll initial))
  = [CallStop (Pat "bd sd [~ bd] sd, hh*8" (Some 0.7%float));
     CallHush; SetIsPlaying false; SetCombinedPattern None].
Proof.
  split; [reflexivity|]. split; [reflexivity|].
  exact (proj1 (proj2 (@stopAll_stops_then_clears _ working
                         (dispatch working PlayAll initial)))
               _ eq_refl eq_refl).
Defined.

(** Removing the first entry of the first page while it plays. *)
Lemma removePattern_stops_first_witness :
  isPlaying (dispatch working PlayAll initial) = true /\
  effects (removePattern working (dispatch working PlayAll initial) "1")
  = [CallStop (Pat "bd sd [~ bd] sd, hh*8" (Some 0.7%float));
     CallHush; SetIsPlaying false; SetCombinedPattern None;
     SetPatterns [mkPatternInput "2" "hh*8" "Hi-hats"]] /\
  isPlaying (dispatch working (RemovePattern "1") (dispatch working PlayAll initial))
  = false.
Proof.
  split; [reflexivity|].
  pose proof (@removePattern_stops_first _ working
                (dispatch working PlayAll initial) "1" eq_refl) as H.
  split; [exact (proj1 H)|exact (proj1 (proj2 H))].
Defined.

(** Adding to the first page, then removing the entry of id ["3"]. *)
Lemma add_then_remove_restores_witness :
  reachable (@initial Compiled) /\
  (nextId (@initial Compiled) <= JS.MAX_SAFE_INTEGER)%N /\
  patterns (dispatch working (RemovePattern "3") (dispatch working AddPattern initial))
  = initialPatterns.
Proof.
  assert (Hsafe : (nextId (@initial Compiled) <= JS.MAX_SAFE_INTEGER)%N)
    by discriminate.
  split; [apply reach_initial|]. split; [exact Hsafe|].
  exact (proj2 (@add_then_remove_restores _ working working initial
                  (@reach_initial Compiled) Hsafe)).
Defined.

(** The first page, once playing, holds its compiled pattern. *)
Lemma playing_implies_session_witness :
  reachable (dispatch working PlayAll initial) /\
  isPlaying (dispatch working PlayAll initial) = true /\
  combinedPattern (dispatch working PlayAll initial) <> None.
Proof.
  assert (Hreach : reachable (dispatch working PlayAll initial)).
  { apply reach_dispatch; [apply reach_initial|reflexivity]. }
  split; [exact Hreach|]. split; [reflexivity|].
  exact (proj1 (proj2 playing_implies_session) _ Hreach eq_refl).
Defined.

(** * More properties of the store and of playback *)

Section StoreProperties.

Import App Controls.

Context {Handle : Type}.

Implicit Types (engine : Engine Handle) (st : AppState Handle).

(** ** Ids are unique *)

Lemma filter_keeps_NoDup_ids (f : PatternInput -> bool) (l : list PatternInput) :
  NoDup (map id l) -> NoDup (map id (filter f l)).
Proof.
  induction l as [|q l IH]; intros Hnd; [constructor|].
  cbn in Hnd. inversion Hnd as [|x xs Hnotin Hrest]; subst.
  cbn. destruct (f q); [|now apply IH].
  cbn. constructor; [|now apply IH].
  intros Hin. apply Hnotin.
  apply in_map_iff in Hin as [r [Hr Hin]].
  apply filter_In in Hin as [Hin _].
  apply in_map_iff. exists r. split; assumption.
Qed.

Lemma update_keeps_ids (l : list PatternInput) id0 field value :
  field <> FId ->
  map id (map (fun p => if (id p =? id0)%string
                        then withField p field value else p) l)
  = map id l.
Proof.
  intros Hfield. rewrite map_map. apply map_ext. intros p.
  destruct (id p =? id0)%string; [|reflexivity].
  now apply withField_keeps_id.
Qed.

Lemma dispatch_ids_unique engine a st :
  fromPage a = true ->
  ids_fresh st ->
  NoDup (map id (patterns st)) ->
  NoDup (map id (patterns (dispatch engine a st))).
Proof.
  intros Hpage Hfresh Hnd.
  destruct (dispatch_store engine a st) as [Hps _]. rewrite Hps. clear Hps.
  destruct a as [| | |id0|id0 field value|v]; try exact Hnd.
  - rewrite map_app. apply NoDup_app; [exact Hnd|repeat constructor; intros []|].
    intros x Hx [Hnew|[]]. cbn in Hnew. subst x.
    apply in_map_iff in Hx as [q [Hid Hq]].
    destruct (Hfresh q Hq) as [k [Hk Hidk]].
    rewrite Hidk in Hid. apply toString_inj in Hid. lia.
  - now apply filter_keeps_NoDup_ids.
  - rewrite update_keeps_ids; [exact Hnd|].
    destruct field; cbn in Hpage; congruence.
Qed.

Lemma reachable_ids_unique st :
  reachable st ->
  (nextId st <= JS.MAX_SAFE_INTEGER)%N ->
  NoDup (map id (patterns st)).
Proof.
  induction 1 as [|engine a st Hreach IH Hpage]; intros Hsafe.
  - cbn. repeat constructor; cbn; intuition discriminate.
  - pose proof (dispatch_counter_grows engine a st) as Hgrow.
    assert (Hsafe0 : (nextId st <= JS.MAX_SAFE_INTEGER)%N) by lia.
    apply dispatch_ids_unique; [exact Hpage| |now apply IH].
    now apply reachable_ids_fresh.
Qed.

(** X1.  In every state the page can reach, while the counter of ids is a
    safe integer (below 2^53), no two entries of the pattern list share an
    id (the React key of a card), and no entry has the id that the next
    Add Pattern will issue. *)
Theorem ids_stay_unique st :
  reachable st ->
  (nextId st <= JS.MAX_SAFE_INTEGER)%N ->
  NoDup (map id (patterns st)) /\
  ~ In (JS.toString (nextId st)) (map id (patterns st)).
Proof.
  intros Hreach Hsafe. split; [now apply reachable_ids_unique|].
  intros Hin. apply in_map_iff in Hin as [q [Hid Hq]].
  destruct (reachable_ids_fresh Hreach Hsafe q Hq) as [k [Hk Hidk]].
  rewrite Hidk in Hid. apply toString_inj in Hid. lia.
Qed.

Lemma filter_all_kept {A} (f : A -> bool) (l : list A) :
  (forall x, In x l -> f x = true) -> filter f l = l.
Proof.
  intros Hall. apply forallb_filter_id. apply forallb_forall. exact Hall.
Qed.

Lemma other_ids_differ (l1 l2 : list PatternInput) (p : PatternInput) :
  NoDup (map id (l1 ++ p :: l2)) ->
  forall q, In q (l1 ++ l2) -> (id q =? id p)%string = false.
Proof.
  intros Hnd q Hq.
  rewrite map_app in Hnd. cbn in Hnd. apply NoDup_remove_2 in Hnd.
  apply String.eqb_neq. intros Heq. apply Hnd.
  rewrite <- map_app. apply in_map_iff. exists q. split; assumption.
Qed.

(** X2.  In every state the page can reach, while the counter of ids is a
    safe integer (below 2^53), the delete button of a card removes that
    card and no other: the entries before it and after it stay, in their
    order. *)
Theorem removePattern_removes_one engine st l1 p l2 :
  reachable st ->
  (nextId st <= JS.MAX_SAFE_INTEGER)%N ->
  patterns st = l1 ++ p :: l2 ->
  patterns (dispatch engine (RemovePattern (id p)) st) = l1 ++ l2.
Proof.
  intros Hreach Hsafe Hsplit.
  destruct (dispatch_store engine (RemovePattern (id p)) st) as [Hps _].
  rewrite Hps, Hsplit. clear Hps.
  pose proof (reachable_ids_unique Hreach Hsafe) as Hnd. rewrite Hsplit in Hnd.
  pose proof (other_ids_differ l1 l2 p Hnd) as Hother.
  rewrite filter_app. cbn. rewrite String.eqb_refl. cbn.
  rewrite !filter_all_kept; [reflexivity| |].
  - intros q Hq. rewrite Hother; [reflexivity|]. apply in_or_app. now right.
  - intros q Hq. rewrite Hother; [reflexivity|]. apply in_or_app. now left.
Qed.

(** X3.  In every state the page can reach, while the counter of ids is a
    safe integer (below 2^53), typing in the name or in the pattern text of
    a card replaces that field of that card and nothing else: the other
    cards, their order, and the other fields of the card are as before. *)
Theorem updatePattern_edits_one engine st l1 p l2 field value :
  reachable st ->
  (nextId st <= JS.MAX_SAFE_INTEGER)%N ->
  field <> FId ->
  patterns st = l1 ++ p :: l2 ->
  patterns (dispatch engine (UpdatePattern (id p) field value) st)
  = l1 ++ withField p field value :: l2 /\
  id (withField p field value) = id p.
Proof.
  intros Hreach Hsafe Hfield Hsplit.
  split; [|now apply withField_keeps_id].
  destruct (dispatch_store engine (UpdatePattern (id p) field value) st)
    as [Hps _].
  rewrite Hps, Hsplit. clear Hps.
  pose proof (reachable_ids_unique Hreach Hsafe) as Hnd. rewrite Hsplit in Hnd.
  pose proof (other_ids_differ l1 l2 p Hnd) as Hother.
  rewrite map_app. cbn. rewrite String.eqb_refl.
  assert (Hsame : forall l, (forall q, In q l -> In q (l1 ++ l2)) ->
    map (fun q => if (id q =? id p)%string
                  then withField q field value else q) l = l).
  { intros l Hsub. rewrite <- (map_id l) at 2. apply map_ext_in.
    intros q Hq. rewrite (Hother q (Hsub q Hq)). reflexivity. }
  rewrite !Hsame; [reflexivity| |].
  - intros q Hq. apply in_or_app. now right.
  - intros q Hq. apply in_or_app. now left.
Qed.

Lemma removePattern_stops_first_log engine st id0 :
  isPlaying st = true ->
  effects (removePattern engine st id0) =
    patternStop engine st
      ++ [CallHush; SetIsPlaying false; SetCombinedPattern None;
          SetPatterns (filter (fun p => negb (id p =? id0)%string) (patterns st))] /\
  isPlaying (dispatch engine (RemovePattern id0) st) = false.
Proof.
  intros Hplaying.
  assert (Hlog : effects (removePattern engine st id0) =
    patternStop engine st
      ++ [CallHush; SetIsPlaying false; SetCombinedPattern None;
          SetPatterns (filter (fun p => negb (id p =? id0)%string) (patterns st))]).
  { rewrite removePattern_run, Hplaying. unfold effects.
    rewrite stopAll_run. cbn [fst]. rewrite <- app_assoc. reflexivity. }
  split; [exact Hlog|].
  unfold dispatch, render. cbn [handle].
  unfold effects in Hlog. rewrite Hlog, fold_patternStop. reflexivity.
Qed.

(** X4.  An id that no entry carries: [updatePattern] leaves the whole
    state as it was; [removePattern] leaves the pattern list as it was, and
    the whole state when the page is stopped, but when the page is playing
    it stops playback all the same. *)
Theorem unknown_id_changes_no_entry engine st id0 field value :
  settled st ->
  (forall p, In p (patterns st) -> id p <> id0) ->
  dispatch engine (UpdatePattern id0 field value) st = st /\
  patterns (dispatch engine (RemovePattern id0) st) = patterns st /\
  (isPlaying st = false -> dispatch engine (RemovePattern id0) st = st) /\
  (isPlaying st = true ->
   isPlaying (dispatch engine (RemovePattern id0) st) = false /\
   existsb is_stop_call (effects (removePattern engine st id0)) = true /\
   In CallHush (effects (removePattern engine st id0))).
Proof.
  intros [Hp Hv] Hunknown.
  assert (Hneq : forall p, In p (patterns st) -> (id p =? id0)%string = false).
  { intros p Hin. apply String.eqb_neq. now apply Hunknown. }
  assert (Hfilter :
    filter (fun p => negb (id p =? id0)%string) (patterns st) = patterns st).
  { apply filter_all_kept. intros p Hin. rewrite (Hneq p Hin). reflexivity. }
  assert (Hmap :
    map (fun p => if (id p =? id0)%string
                  then withField p field value else p) (patterns st)
    = patterns st).
  { rewrite <- (map_id (patterns st)) at 2. apply map_ext_in.
    intros p Hin. rewrite (Hneq p Hin). reflexivity. }
  split; [|split; [|split]].
  - unfold dispatch, render. cbn. rewrite Hmap.
    destruct st; cbn in *; subst; reflexivity.
  - destruct (dispatch_store engine (RemovePattern id0) st) as [Hps _].
    rewrite Hps. exact Hfilter.
  - intros Hstopped. unfold dispatch, render. cbn [handle].
    rewrite removePattern_run, Hstopped. cbn. rewrite Hfilter.
    destruct st; cbn in *; subst; reflexivity.
  - intros Hplaying.
    destruct (removePattern_stops_first_log engine st id0 Hplaying) as [Hlog Hflag].
    split; [exact Hflag|]. rewrite Hlog. split.
    + rewrite existsb_app. apply orb_true_iff. right. reflexivity.
    + apply in_or_app. right. left. reflexivity.
Qed.

End StoreProperties.

(** * More properties of the playback session *)

Section SessionProperties.

Import App Controls.

Context {Handle : Type}.

Implicit Types (engine : Engine Handle) (st : AppState Handle).

Lemma dispatch_stopAll engine st :
  dispatch engine StopAll st
  = mkAppState (patterns st) (volume st) (nextId st) false None
               (patterns st) (nth_error (volume st) 0).
Proof.
  unfold dispatch, render. cbn [handle].
  rewrite stopAll_run. cbn [fst]. rewrite fold_patternStop. reflexivity.
Qed.

(** A play either changes nothing or starts a session on a fresh handle. *)
Lemma dispatch_playAll_shape engine st :
  settled st ->
  (dispatch engine PlayAll st = st /\
   (existsb (raises engine) (effects (playAll engine st)) = true \/
    validPatterns st = [])) \/
  exists h,
    dispatch engine PlayAll st
    = mkAppState (patterns st) (volume st) (nextId st) true (Some h)
                 (patterns st) (nth_error (volume st) 0).
Proof.
  intros Hst. unfold dispatch. cbn [handle].
  destruct (combinedText st) as [text|] eqn:Htext.
  - rewrite (playAll_cases engine st Htext).
    destruct (s engine text) as [c|e] eqn:Hs.
    2:{ left. split; [now apply render_settled|].
        left. cbn. rewrite Hs. reflexivity. }
    destruct (gain engine c (volumeRef st)) as [h|e] eqn:Hg.
    2:{ left. split; [now apply render_settled|].
        left. cbn. rewrite Hs, Hg. reflexivity. }
    destruct (play engine h) as [u|e] eqn:Hp.
    2:{ left. split; [now apply render_settled|].
        left. cbn. rewrite Hs, Hg, Hp. apply orb_true_r. }
    right. exists h. reflexivity.
  - apply combinedText_none in Htext.
    rewrite (playAll_idle engine st Htext).
    left. split; [now apply render_settled|now right].
Qed.

Lemma dispatch_session_idle engine a st :
  (isPlaying st = false -> combinedPattern st = None) ->
  isPlaying (dispatch engine a st) = false ->
  combinedPattern (dispatch engine a st) = None.
Proof.
  unfold dispatch, render. intros Hidle.
  destruct a as [| | |id0|id0 field value|v]; cbn [handle].
  - destruct (combinedText st) as [text|] eqn:Htext.
    + rewrite (playAll_cases engine st Htext).
      destruct (s engine text) as [c|e]; [|exact Hidle].
      destruct (gain engine c (volumeRef st)) as [h|e]; [|exact Hidle].
      destruct (play engine h) as [u|e]; [|exact Hidle].
      cbn. discriminate.
    + apply combinedText_none in Htext.
      rewrite (playAll_idle engine st Htext). exact Hidle.
  - rewrite stopAll_run. cbn [fst]. rewrite fold_patternStop. reflexivity.
  - exact Hidle.
  - rewrite removePattern_run. cbn [fst]. unfold effects.
    destruct (isPlaying st) eqn:Hplaying.
    + rewrite stopAll_run. cbn [fst].
      rewrite <- app_assoc, fold_patternStop. reflexivity.
    + cbn. intros _. now apply Hidle.
  - exact Hidle.
  - exact Hidle.
Qed.

Lemma reachable_session_idle st :
  reachable st -> isPlaying st = false -> combinedPattern st = None.
Proof.
  induction 1 as [|engine a st Hreach IH Hpage]; [reflexivity|].
  now apply dispatch_session_idle.
Qed.

(** X5.  In every state the page can reach, the playing flag and the
    session handle agree: the page is playing exactly when it holds a
    compiled pattern.  In particular, whenever the Play All button is
    enabled no compiled pattern is held, so a play never starts on top of a
    session that is still active. *)
Theorem flag_and_handle_agree st :
  reachable st ->
  isPlaying st = match combinedPattern st with Some _ => true | None => false end /\
  (playDisabled st = false -> combinedPattern st = None).
Proof.
  intros Hreach.
  assert (Hagree :
    isPlaying st = match combinedPattern st with Some _ => true | None => false end).
  { destruct (isPlaying st) eqn:Hplaying.
    - assert (Hok : session_ok st).
      { clear Hplaying.
        induction Hreach as [|engine a st Hreach IH Hpage]; [discriminate|].
        now apply dispatch_session_ok. }
      destruct (combinedPattern st) as [h|] eqn:Hh; [reflexivity|].
      exfalso. apply (Hok Hplaying). exact Hh.
    - rewrite (reachable_session_idle Hreach Hplaying). reflexivity. }
  split; [exact Hagree|].
  unfold playDisabled. intros Henabled.
  apply orb_false_iff in Henabled as [Hstopped _].
  now apply reachable_session_idle.
Qed.

(** X6.  From every reachable state in which the page is stopped, Play All
    followed by Stop All brings back that very state, whether the play
    started or failed, and whatever the engine answered. *)
Theorem play_then_stop_restores engine1 engine2 st :
  reachable st ->
  isPlaying st = false ->
  dispatch engine2 StopAll (dispatch engine1 PlayAll st) = st.
Proof.
  intros Hreach Hstopped.
  pose proof (reachable_settled Hreach) as Hst.
  pose proof (reachable_session_idle Hreach Hstopped) as Hidle.
  rewrite dispatch_stopAll.
  destruct (dispatch_playAll_shape engine1 Hst) as [[Hsame _]|[h Hstart]].
  - rewrite Hsame. destruct Hst as [Hp Hv].
    destruct st; cbn in *; subst; reflexivity.
  - rewrite Hstart. cbn. destruct Hst as [Hp Hv].
    destruct st; cbn in *; subst; reflexivity.
Qed.

(** X7.  Texts made of white space only count as empty: when every entry
    of the pattern list is blank once trimmed, the Play All button is
    disabled, and [playAll] itself, if invoked all the same, only shows the
    alert: no call to the compiler, and the state stays as it was. *)
Theorem blank_texts_are_refused engine st :
  settled st ->
  (forall p, In p (patterns st) -> JS.trim (pattern p) = "") ->
  playDisabled st = true /\
  playAll engine st = ([Alert "No valid patterns to play"], Normal tt) /\
  dispatch engine PlayAll st = st.
Proof.
  intros Hst Hblank.
  assert (Hnone :
    filter (fun p => JS.truthy (JS.trim (pattern p))) (patterns st) = []).
  { apply filter_nil_of_all_false. intros p Hin.
    rewrite (Hblank p Hin). reflexivity. }
  assert (Hnil : validPatterns st = []).
  { rewrite (validPatterns_settled Hst). exact Hnone. }
  pose proof (playAll_idle engine st Hnil) as Hrun.
  split; [|split; [exact Hrun|]].
  - unfold playDisabled. rewrite Hnone. apply orb_true_r.
  - unfold dispatch. cbn [handle]. rewrite Hrun.
    apply render_settled; [exact Hst|reflexivity].
Qed.

(** X8.  When the Play All button is enabled, [playAll] does reach the
    compiler, with one call, on the combined text; and an alert can then
    only come from an engine call that threw (the alert for a list without
    valid text is out of reach of the button). *)
Theorem enabled_play_reaches_compiler engine st :
  settled st ->
  playDisabled st = false ->
  exists text,
    combinedText st = Some text /\
    filter is_compile (effects (playAll engine st)) = [CallS text] /\
    (existsb is_alert (effects (playAll engine st)) = true ->
     existsb (raises engine) (effects (playAll engine st)) = true).
Proof.
  intros Hst Henabled.
  unfold playDisabled in Henabled.
  apply orb_false_iff in Henabled as [_ Hsome].
  destruct (combinedText st) as [text|] eqn:Htext.
  - exists text. split; [reflexivity|].
    rewrite (playAll_cases engine st Htext).
    destruct (s engine text) as [c|e] eqn:Hs.
    2:{ cbn. rewrite Hs. split; reflexivity. }
    destruct (gain engine c (volumeRef st)) as [h|e] eqn:Hg.
    2:{ cbn. rewrite Hs, Hg. split; reflexivity. }
    destruct (play engine h) as [u|e] eqn:Hp.
    2:{ cbn. rewrite Hs, Hg, Hp. split; reflexivity. }
    cbn. split; [reflexivity|discriminate].
  - apply combinedText_none in Htext.
    rewrite (validPatterns_settled Hst) in Htext.
    rewrite Htext in Hsome. discriminate.
Qed.

(** X9.  Adding a pattern, typing in a card and moving the volume slider
    only call state setters: no call into the engine, no alert, no console
    output; and the playing flag and the session handle are as before, so an
    edit made while the page plays neither stops nor restarts playback. *)
Theorem edits_leave_playback_alone engine st a :
  is_edit a = true ->
  forallb is_setter (effects (handle engine st a)) = true /\
  completion (handle engine st a) = Normal tt /\
  isPlaying (dispatch engine a st) = isPlaying st /\
  combinedPattern (dispatch engine a st) = combinedPattern st.
Proof.
  destruct a as [| | |id0|id0 field value|v]; intros Hedit;
    try discriminate; repeat split; reflexivity.
Qed.

(** X10.  The volume is read when a pattern is compiled: after the slider
    moved to [v], the state holds [v], and every [.gain] call of the next
    [playAll] is given [v[0]]. *)
Theorem volume_is_read_at_play engine engine' st v :
  volume (dispatch engine (ChangeVolume v) st) = v /\
  forall h value,
    In (CallGain h value)
       (effects (playAll engine' (dispatch engine (ChangeVolume v) st))) ->
    value = nth_error v 0.
Proof.
  split; [reflexivity|].
  intros h value.
  set (st' := dispatch engine (ChangeVolume v) st).
  assert (Hv : volumeRef st' = nth_error v 0) by reflexivity.
  destruct (combinedText st') as [text|] eqn:Htext.
  - rewrite (playAll_cases engine' st' Htext), Hv.
    destruct (s engine' text) as [c|e].
    2:{ intros Hin. unfold effects in Hin; cbn [fst In] in Hin. intuition discriminate. }
    destruct (gain engine' c (nth_error v 0)) as [h'|e].
    2:{ intros Hin. unfold effects in Hin; cbn [fst In] in Hin. intuition congruence. }
    destruct (play engine' h') as [u|e];
      intros Hin; unfold effects in Hin; cbn [fst In] in Hin; intuition congruence.
  - apply combinedText_none in Htext.
    rewrite (playAll_idle engine' st' Htext).
    intros Hin. unfold effects in Hin; cbn [fst In] in Hin. intuition discriminate.
Qed.

Lemma playAll_never_stops engine st :
  existsb is_stop_call (effects (playAll engine st)) = false.
Proof.
  destruct (combinedText st) as [text|] eqn:Htext.
  - rewrite (playAll_cases engine st Htext).
    destruct (s engine text) as [c|e]; [|reflexivity].
    destruct (gain engine c (volumeRef st)) as [h|e]; [|reflexivity].
    destruct (play engine h) as [u|e]; reflexivity.
  - apply combinedText_none in Htext.
    rewrite (playAll_idle engine st Htext). reflexivity.
Qed.

(** X11.  Sound is stopped by two handlers only: a handler calls [.stop]
    or [hush] exactly when it is [stopAll], or [removePattern] on a playing
    page; [playAll] never does, even when a session is already active.
    And a handler that stops always calls the global [hush]. *)
Theorem stops_come_from_stop_or_remove engine st a :
  (existsb is_stop_call (effects (handle engine st a)) = true <->
   a = StopAll \/ exists id0, a = RemovePattern id0 /\ isPlaying st = true) /\
  (existsb is_stop_call (effects (handle engine st a)) = true ->
   In CallHush (effects (handle engine st a))).
Proof.
  assert (Hstop : existsb is_stop_call (effects (stopAll engine st)) = true /\
                  In CallHush (effects (stopAll engine st))).
  { rewrite stopAll_run. unfold effects. cbn [fst]. split.
    - rewrite existsb_app. apply orb_true_iff. right. reflexivity.
    - apply in_or_app. right. left. reflexivity. }
  destruct a as [| | |id0|id0 field value|v]; cbn [handle].
  - rewrite playAll_never_stops. split; [split|]; try discriminate.
    intros [Habs|[id0 [Habs _]]]; discriminate.
  - destruct Hstop as [Hcall Hhush]. split; [split|]; auto.
  - split; [split|]; try discriminate.
    intros [Habs|[id0 [Habs _]]]; discriminate.
  - destruct (isPlaying st) eqn:Hplaying.
    + destruct (removePattern_stops_first_log engine st id0 Hplaying) as [Hlog _].
      rewrite Hlog. split; [split|].
      * intros _. right. exists id0. split; reflexivity.
      * intros _. rewrite existsb_app. apply orb_true_iff. right. reflexivity.
      * intros _. apply in_or_app. right. left. reflexivity.
    + rewrite removePattern_run, Hplaying. split; [split|]; try discriminate.
      intros [Habs|[id1 [_ Habs]]]; discriminate.
  - split; [split|]; try discriminate.
    intros [Habs|[id1 [Habs _]]]; discriminate.
  - split; [split|]; try discriminate.
    intros [Habs|[id1 [Habs _]]]; discriminate.
Qed.

End SessionProperties.

(** The initial page has unique ids, and ["3"] is not among them. *)
Lemma ids_stay_unique_witness :
  reachable (@initial Compiled) /\
  (nextId (@initial Compiled) <= JS.MAX_SAFE_INTEGER)%N /\
  NoDup (map id (patterns (@initial Compiled))) /\
  ~ In "3" (map id (patterns (@initial Compiled))).
Proof.
  assert (Hsafe : (nextId (@initial Compiled) <= JS.MAX_SAFE_INTEGER)%N)
    by discriminate.
  split; [apply reach_initial|]. split; [exact Hsafe|].
  exact (@ids_stay_unique _ initial (@reach_initial Compiled) Hsafe).
Defined.

(** Deleting the first card of the initial page leaves the second. *)
Lemma removePattern_removes_one_witness :
  reachable (@initial Compiled) /\
  (nextId (@initial Compiled) <= JS.MAX_SAFE_INTEGER)%N /\
  patterns (dispatch working (RemovePattern "1") initial)
  = [mkPatternInput "2" "hh*8" "Hi-hats"].
Proof.
  assert (Hsafe : (nextId (@initial Compiled) <= JS.MAX_SAFE_INTEGER)%N)
    by discriminate.
  split; [apply reach_initial|]. split; [exact Hsafe|].
  exact (@removePattern_removes_one _ working initial []
           (mkPatternInput "1" "bd sd [~ bd] sd" "Kick & Snare")
           [mkPatternInput "2" "hh*8" "Hi-hats"]
           (@reach_initial Compiled) Hsafe eq_refl).
Defined.

(** Retyping the text of the second card of the initial page. *)
Lemma updatePattern_edits_one_witness :
  reachable (@initial Compiled) /\
  (nextId (@initial Compiled) <= JS.MAX_SAFE_INTEGER)%N /\
  patterns (dispatch working (UpdatePattern "2" FPattern "hh*4") initial)
  = [mkPatternInput "1" "bd sd [~ bd] sd" "Kick & Snare";
     mkPatternInput "2" "hh*4" "Hi-hats"].
Proof.
  assert (Hfield : FPattern <> FId) by discriminate.
  assert (Hsafe : (nextId (@initial Compiled) <= JS.MAX_SAFE_INTEGER)%N)
    by discriminate.
  split; [apply reach_initial|]. split; [exact Hsafe|].
  exact (proj1 (@updatePattern_edits_one _ working initial
           [mkPatternInput "1" "bd sd [~ bd] sd" "Kick & Snare"]
           (mkPatternInput "2" "hh*8" "Hi-hats") [] FPattern "hh*4"
           (@reach_initial Compiled) Hsafe Hfield eq_refl)).
Defined.

(** No card of the initial page has the id ["9"]. *)
Lemma unknown_id_changes_no_entry_witness :
  settled (@initial Compiled) /\
  (forall p, In p (patterns (@initial Compiled)) -> id p <> "9") /\
  dispatch working (UpdatePattern "9" FName "x") initial = initial /\
  patterns (dispatch working (RemovePattern "9") initial) = initialPatterns.
Proof.
  assert (Hst : settled (@initial Compiled)) by (split; reflexivity).
  assert (Hunknown : forall p, In p (patterns (@initial Compiled)) -> id p <> "9").
  { intros p [Hp|[Hp|[]]]; subst p; discriminate. }
  split; [exact Hst|]. split; [exact Hunknown|].
  pose proof (@unknown_id_changes_no_entry _ working initial "9" FName "x"
                Hst Hunknown) as H.
  split; [exact (proj1 H)|exact (proj1 (proj2 H))].
Defined.

(** The initial page, once playing, holds a handle and has Play disabled. *)
Lemma flag_and_handle_agree_witness :
  reachable (dispatch working PlayAll initial) /\
  isPlaying (dispatch working PlayAll initial) = true /\
  combinedPattern (dispatch working PlayAll initial)
  = Some (Pat "bd sd [~ bd] sd, hh*8" (Some 0.7%float)).
Proof.
  assert (Hreach : reachable (dispatch working PlayAll initial)).
  { apply reach_dispatch; [apply reach_initial|reflexivity]. }
  split; [exact Hreach|].
  pose proof (proj1 (@flag_and_handle_agree _ _ Hreach)) as H.
  split; [exact H|reflexivity].
Defined.

(** Play then stop on the initial page, on an engine that works and on one
    whose player throws. *)
Lemma play_then_stop_restores_witness :
  reachable (@initial Compiled) /\
  isPlaying (@initial Compiled) = false /\
  dispatch working StopAll (dispatch working PlayAll initial) = initial /\
  dispatch working StopAll (dispatch silent PlayAll initial) = initial.
Proof.
  split; [apply reach_initial|]. split; [reflexivity|].
  split.
  - exact (@play_then_stop_restores _ working working initial
             (@reach_initial Compiled) eq_refl).
  - reflexivity.
Defined.

(** A page of a blank and of an empty text. *)
Lemma blank_texts_are_refused_witness :
  settled (pageOf [" "; ""]) /\
  (forall p, In p (patterns (pageOf [" "; ""])) -> JS.trim (pattern p) = "") /\
  Controls.playDisabled (pageOf [" "; ""]) = true /\
  playAll working (pageOf [" "; ""])
  = ([Alert "No valid patterns to play"], Normal tt) /\
  dispatch working PlayAll (pageOf [" "; ""]) = pageOf [" "; ""].
Proof.
  assert (Hst : settled (pageOf [" "; ""])) by (split; reflexivity).
  assert (Hblank : forall p, In p (patterns (pageOf [" "; ""]))
                             -> JS.trim (pattern p) = "").
  { intros p [Hp|[Hp|[]]]; subst p; reflexivity. }
  split; [exact Hst|]. split; [exact Hblank|].
  exact (@blank_texts_are_refused _ working _ Hst Hblank).
Defined.

(** The initial page has Play enabled; on an engine whose compiler throws
    the one compile call is made and the alert follows the throw. *)
Lemma enabled_play_reaches_compiler_witness :
  settled (@initial Compiled) /\
  Controls.playDisabled (@initial Compiled) = false /\
  exists text,
    combinedText (@initial Compiled) = Some text /\
    filter is_compile (effects (playAll rejecting initial)) = [CallS text] /\
    (existsb is_alert (effects (playAll rejecting initial)) = true ->
     existsb (raises rejecting) (effects (playAll rejecting initial)) = true).
Proof.
  assert (Hst : settled (@initial Compiled)) by (split; reflexivity).
  split; [exact Hst|]. split; [reflexivity|].
  exact (@enabled_play_reaches_compiler _ rejecting _ Hst eq_refl).
Defined.

(** Adding a card while the initial page plays. *)
Lemma edits_leave_playback_alone_witness :
  Controls.is_edit AddPattern = true /\
  isPlaying (dispatch working AddPattern (dispatch working PlayAll initial)) = true /\
  combinedPattern (dispatch working AddPattern (dispatch working PlayAll initial))
  = combinedPattern (dispatch working PlayAll initial).
Proof.
  split; [reflexivity|].
  pose proof (@edits_leave_playback_alone _ working
                (dispatch working PlayAll initial) AddPattern eq_refl) as H.
  split; [exact (proj1 (proj2 (proj2 H)))|exact (proj2 (proj2 (proj2 H)))].
Defined.

(** The slider moved to a quarter, then Play All on the initial page. *)
Lemma volume_is_read_at_play_witness :
  In (CallGain (Pat "bd sd [~ bd] sd, hh*8" None) (Some 0.25%float))
     (effects (playAll working (dispatch working (ChangeVolume [0.25%float]) initial))) /\
  Some 0.25%float = nth_error [0.25%float] 0.
Proof.
  assert (Hin : In (CallGain (Pat "bd sd [~ bd] sd, hh*8" None) (Some 0.25%float))
     (effects (playAll working
                 (dispatch working (ChangeVolume [0.25%float]) initial)))).
  { right. left. reflexivity. }
  split; [exact Hin|].
  exact (proj2 (@volume_is_read_at_play _ working working initial [0.25%float])
               _ _ Hin).
Defined.

(** * More properties of the [Punchcard] drawing *)

Section DrawingProperties.

Import Punchcard Reading.

Local Open Scope float_scope.

(** ** The instruments of an event list *)

Lemma distinct_step (values seen : list string) :
  NoDup seen ->
  NoDup (fold_left
           (fun seen v => if existsb (String.eqb v) seen then seen else seen ++ [v])
           values seen) /\
  (forall v,
      In v (fold_left
              (fun seen v => if existsb (String.eqb v) seen then seen else seen ++ [v])
              values seen)
      <-> In v seen \/ In v values) /\
  exists more,
    fold_left
      (fun seen v => if existsb (String.eqb v) seen then seen else seen ++ [v])
      values seen
    = seen ++ more.
Proof.
  revert seen. induction values as [|x values IH]; intros seen Hnd.
  - cbn. split; [exact Hnd|]. split; [intuition|].
    exists []. now rewrite app_nil_r.
  - cbn [fold_left].
    destruct (existsb (String.eqb x) seen) eqn:Hseen.
    + destruct (IH seen Hnd) as (Hnd' & Hin & Hmore).
      split; [exact Hnd'|]. split; [|exact Hmore].
      intros v. rewrite Hin. cbn.
      apply existsb_exists in Hseen as [y [Hy Heq]].
      apply String.eqb_eq in Heq. subst y.
      intuition (subst; auto).
    + assert (Hfresh : ~ In x seen).
      { intros Hx.
        assert (Hex : existsb (String.eqb x) seen = true).
        { apply existsb_exists. exists x. split; [exact Hx|apply String.eqb_refl]. }
        congruence. }
      assert (Hnd1 : NoDup (seen ++ [x])).
      { apply NoDup_app; [exact Hnd|repeat constructor; intros []|].
        intros a Ha [Hax|[]]. subst a. contradiction. }
      destruct (IH (seen ++ [x]) Hnd1) as (Hnd' & Hin & [more Hmore]).
      split; [exact Hnd'|]. split.
      * intros v. rewrite Hin, in_app_iff. cbn. intuition.
      * exists (x :: more). rewrite Hmore, <- app_assoc. reflexivity.
Qed.

Lemma instruments_spec (eventData : list PunchcardData) :
  NoDup (instruments eventData) /\
  (forall v, In v (instruments eventData)
             <-> exists event, In event eventData /\ value event = v).
Proof.
  unfold instruments, distinct.
  destruct (distinct_step (map value eventData) (@NoDup_nil string))
    as (Hnd & Hin & _).
  split; [exact Hnd|].
  intros v. rewrite Hin, in_map_iff. cbn.
  split.
  - intros [[]|[event [Hv He]]]. exists event. split; assumption.
  - intros [event [He Hv]]. right. exists event. split; assumption.
Qed.

(** X12.  The tracks of a drawing: the list of instruments has no label
    twice, and holds exactly the labels that occur in the event list, so
    every event has one track and no track is empty; the first track is
    that of the first event. *)
Theorem instruments_are_the_distinct_labels (eventData : list PunchcardData) :
  NoDup (instruments eventData) /\
  (forall v, In v (instruments eventData)
             <-> exists event, In event eventData /\ value event = v) /\
  (forall v, In v (instruments eventData) -> eventsOf eventData v <> []) /\
  (forall event rest,
      eventData = event :: rest ->
      exists more, instruments eventData = value event :: more).
Proof.
  destruct (instruments_spec eventData) as [Hnd Hmem].
  split; [exact Hnd|]. split; [exact Hmem|]. split.
  - intros v Hv Hnone. apply Hmem in Hv as [event [He Hval]].
    assert (Hev : In event (eventsOf eventData v)).
    { apply filter_In. split; [exact He|]. apply String.eqb_eq. exact Hval. }
    rewrite Hnone in Hev. destruct Hev.
  - intros event rest Heq. subst eventData.
    unfold instruments, distinct. cbn [map fold_left existsb app].
    assert (Hone : NoDup [value event]) by (repeat constructor; intros []).
    destruct (distinct_step (map value rest) Hone) as (_ & _ & [more Hmore]).
    exists more. rewrite Hmore. reflexivity.
Qed.

(** ** Reading the tracks *)

Lemma rects_from_app (p : Paint) (a b : list CanvasOp) :
  rects_from p (a ++ b) = rects_from p a ++ rects_from (paint_after p a) b.
Proof.
  revert p. induction a as [|op a IH]; intros p; [reflexivity|].
  destruct op; cbn [app rects_from paint_after]; rewrite ?IH; reflexivity.
Qed.

Lemma paint_after_app (p : Paint) (a b : list CanvasOp) :
  paint_after p (a ++ b) = paint_after (paint_after p a) b.
Proof.
  revert p. induction a as [|op a IH]; intros p; [reflexivity|].
  destruct op; cbn [app paint_after]; rewrite ?IH; reflexivity.
Qed.

Lemma forEach_from_flat_map {A} (index : nat) (arr : list A)
      (body : A -> list CanvasOp) :
  forEach_from index arr (fun x _ => body x) = flat_map body arr.
Proof.
  revert index. induction arr as [|x arr IH]; intros index; [reflexivity|].
  cbn. rewrite IH. reflexivity.
Qed.

Section OneDrawing.

Variable isPlaying : bool.
Variable eventData : list PunchcardData.
Variable now width height : JS.number.

Lemma drawEvent_reads (y : JS.number) (color : string)
      (event : PunchcardData) (p : Paint) :
  map look (rects_from p (drawEvent isPlaying eventData now width height y color event))
  = [eventLook isPlaying now color event] /\
  paint_shadowBlur
    (paint_after p (drawEvent isPlaying eventData now width height y color event))
  = 0.
Proof.
  unfold drawEvent, eventLook.
  destruct (isActive isPlaying now event); split; reflexivity.
Qed.

Lemma events_read (y : JS.number) (color : string)
      (events : list PunchcardData) (p : Paint) :
  paint_shadowBlur p = 0 ->
  map look
      (rects_from p
         (flat_map (drawEvent isPlaying eventData now width height y color) events))
  = map (eventLook isPlaying now color) events /\
  paint_shadowBlur
    (paint_after p
       (flat_map (drawEvent isPlaying eventData now width height y color) events))
  = 0.
Proof.
  revert p. induction events as [|event events IH]; intros p Hcalm.
  - split; [reflexivity|exact Hcalm].
  - cbn [flat_map].
    rewrite rects_from_app, paint_after_app, map_app.
    destruct (drawEvent_reads y color event p) as [Hlook Hblur].
    destruct (IH _ Hblur) as [Hlooks Hcalm'].
    rewrite Hlook, Hlooks. split; [reflexivity|exact Hcalm'].
Qed.

Lemma drawTrack_reads (instrument : string) (index : nat) (p : Paint) :
  paint_shadowBlur p = 0 ->
  map look
      (rects_from p
         (drawTrack isPlaying eventData now width height instrument index))
  = (Css "rgba(255, 255, 255, 0.05)", false)
      :: map (eventLook isPlaying now (trackColor index))
             (eventsOf eventData instrument) /\
  paint_shadowBlur
    (paint_after p
       (drawTrack isPlaying eventData now width height instrument index))
  = 0.
Proof.
  intros Hcalm. destruct p as [pf psc pb]. cbn in Hcalm. subst pb.
  unfold drawTrack. cbv zeta. unfold forEach.
  rewrite forEach_from_flat_map.
  rewrite rects_from_app, paint_after_app.
  cbn [app rects_from paint_after map].
  match goal with
  | |- context [rects_from ?q (flat_map ?f ?l)] =>
      destruct (events_read
                  (JS.of_nat index
                   * trackHeight eventData height)
                  (trackColor index) l q eq_refl) as [Hlooks Hblur]
  end.
  unfold trackColor, eventsOf in *.
  split; [|exact Hblur].
  rewrite Hlooks. reflexivity.
Qed.

Lemma tracks_read (labels : list string) (index : nat) (p : Paint) :
  paint_shadowBlur p = 0 ->
  map look
      (rects_from p
         (forEach_from index labels
            (drawTrack isPlaying eventData now width height)))
  = trackLooks_from isPlaying eventData now index labels /\
  paint_shadowBlur
    (paint_after p
       (forEach_from index labels
          (drawTrack isPlaying eventData now width height)))
  = 0.
Proof.
  revert index p. induction labels as [|label labels IH]; intros index p Hcalm.
  - split; [reflexivity|exact Hcalm].
  - cbn [forEach_from trackLooks_from].
    rewrite rects_from_app, paint_after_app, map_app.
    destruct (drawTrack_reads label index p Hcalm) as [Hlook Hblur].
    destruct (IH (S index) _ Hblur) as [Hlooks Hcalm'].
    rewrite Hlook, Hlooks. split; [reflexivity|exact Hcalm'].
Qed.

Lemma nonempty_drawing :
  eventData <> [] ->
  drawCustomVisualization isPlaying eventData now width height
  = drawGrid width height
      ++ forEach (instruments eventData)
                 (drawTrack isPlaying eventData now width height)
      ++ (if isPlaying then drawPlayhead now width height else []).
Proof.
  intros Hne. unfold drawCustomVisualization.
  destruct eventData; [contradiction|reflexivity].
Qed.

End OneDrawing.

Lemma drawing_looks
        (isPlaying : bool) (eventData : list PunchcardData)
        (now width height : JS.number) :
  eventData <> [] ->
  looks (drawCustomVisualization isPlaying eventData now width height)
  = trackLooks_from isPlaying eventData now 0 (instruments eventData).
Proof.
  intros Hne. rewrite (nonempty_drawing isPlaying now width height Hne).
  change (looks ?ops) with (map look (rects_from freshPaint ops)).
  rewrite rects_from_app.
  assert (Hgrid : rects_from freshPaint (drawGrid width height) = []
                  /\ paint_after freshPaint (drawGrid width height) = freshPaint).
  { split; reflexivity. }
  destruct Hgrid as [Hrects Hpaint]. rewrite Hrects, Hpaint. cbn [app].
  rewrite rects_from_app, map_app. unfold forEach.
  destruct (tracks_read isPlaying eventData now width height
              (instruments eventData) 0 freshPaint eq_refl) as [Hlooks _].
  rewrite Hlooks.
  assert (Hhead : forall p,
    rects_from p (if isPlaying then drawPlayhead now width height else []) = []).
  { intros p. destruct isPlaying; reflexivity. }
  rewrite Hhead. cbn [map]. apply app_nil_r.
Qed.

(** X13.  On a non-empty event list, whatever the time and the size of
    the canvas, the filled rectangles are, track after track in the order
    of the instruments: a plain track background, then the events of the
    instrument in the order of the list.  An event glows in the full colour
    of its track exactly when it is active; otherwise it is drawn without
    glow, at half opacity while the page plays and in the full colour while
    it is stopped.  The glow never leaks: a background, or an event that is
    not active, is never filled under a shadow blur. *)
Theorem looks_of_a_drawing
        (isPlaying : bool) (eventData : list PunchcardData)
        (now width height : JS.number) :
  eventData <> [] ->
  looks (drawCustomVisualization isPlaying eventData now width height)
  = trackLooks_from isPlaying eventData now 0 (instruments eventData) /\
  (forall color event,
      snd (eventLook isPlaying now color event) = isActive isPlaying now event) /\
  (isPlaying = false ->
   forallb (fun l => negb (snd l))
           (looks (drawCustomVisualization isPlaying eventData now width height))
   = true).
Proof.
  intros Hne.
  pose proof (drawing_looks isPlaying now width height Hne) as Hlooks.
  split; [exact Hlooks|]. split.
  - intros color event. unfold eventLook.
    destruct (isActive isPlaying now event); reflexivity.
  - intros Hstopped. rewrite Hlooks. clear Hlooks. subst isPlaying.
    generalize 0%nat.
    induction (instruments eventData) as [|label labels IH]; intros index;
      [reflexivity|].
    cbn [trackLooks_from]. rewrite forallb_app, IH, andb_true_r.
    cbn [forallb snd negb andb].
    apply forallb_forall. intros l Hl.
    apply in_map_iff in Hl as [event [Hl _]]. subst l. reflexivity.
Qed.

Lemma flat_map_length_cons (event : PunchcardData)
      (events : list PunchcardData) (labels : list string) :
  List.length (flat_map (eventsOf (event :: events)) labels)
  = (List.length (filter (String.eqb (value event)) labels)
     + List.length (flat_map (eventsOf events) labels))%nat.
Proof.
  induction labels as [|label labels IH]; [reflexivity|].
  cbn [flat_map filter]. rewrite !length_app, IH.
  unfold eventsOf at 1. cbn [filter].
  destruct (String.eqb (value event) label); cbn [List.length];
    fold (eventsOf events label); lia.
Qed.

Lemma one_label_matches (v : string) (labels : list string) :
  NoDup labels -> In v labels ->
  List.length (filter (String.eqb v) labels) = 1%nat.
Proof.
  induction labels as [|label labels IH]; intros Hnd Hin; [destruct Hin|].
  inversion Hnd as [|x xs Hnotin Hrest]; subst.
  cbn [filter]. destruct (String.eqb_spec v label) as [Heq|Hne].
  - subst label. cbn [List.length]. f_equal.
    rewrite filter_nil_of_all_false; [reflexivity|].
    intros y Hy. apply String.eqb_neq. intros Heq. subst y. contradiction.
  - apply IH; [exact Hrest|]. destruct Hin as [Heq|Hin]; [congruence|exact Hin].
Qed.

Lemma every_event_on_one_track (events : list PunchcardData)
      (labels : list string) :
  NoDup labels ->
  (forall event, In event events -> In (value event) labels) ->
  List.length (flat_map (eventsOf events) labels) = List.length events.
Proof.
  intros Hnd. induction events as [|event events IH]; intros Hcover.
  - induction labels as [|label labels IHl]; [reflexivity|].
    inversion Hnd; subst. cbn. now apply IHl.
  - rewrite flat_map_length_cons, one_label_matches;
      [|exact Hnd|apply Hcover; now left].
    rewrite IH; [reflexivity|]. intros e He. apply Hcover. now right.
Qed.

Lemma trackLooks_length (isPlaying : bool) (eventData : list PunchcardData)
      (now : JS.number) (index : nat) (labels : list string) :
  List.length (trackLooks_from isPlaying eventData now index labels)
  = (List.length labels + List.length (flat_map (eventsOf eventData) labels))%nat.
Proof.
  revert index. induction labels as [|label labels IH]; intros index;
    [reflexivity|].
  cbn [trackLooks_from flat_map List.length app].
  rewrite !length_app, length_map, IH. lia.
Qed.

(** X14.  On a non-empty event list every event is drawn once: the drawing
    fills as many rectangles as there are instruments (the track
    backgrounds) and events together, and draws as text the instrument
    labels, each once, in the order of the tracks. *)
Theorem every_event_is_drawn_once
        (isPlaying : bool) (eventData : list PunchcardData)
        (now width height : JS.number) :
  eventData <> [] ->
  List.length (rects (drawCustomVisualization isPlaying eventData now width height))
  = (List.length (instruments eventData) + List.length eventData)%nat /\
  texts (drawCustomVisualization isPlaying eventData now width height)
  = instruments eventData.
Proof.
  intros Hne. split.
  - rewrite <- (length_map
                  (fun r => (paint_fill (rect_paint r), glows r))
                  (rects (drawCustomVisualization isPlaying eventData now width height))).
    change (map _ (rects ?ops)) with (looks ops).
    rewrite (drawing_looks isPlaying now width height Hne).
    rewrite trackLooks_length. f_equal.
    destruct (instruments_spec eventData) as [Hnd Hmem].
    apply every_event_on_one_track; [exact Hnd|].
    intros event He. apply Hmem. exists event. split; [exact He|reflexivity].
  - rewrite (nonempty_drawing isPlaying now width height Hne).
    unfold texts. rewrite !flat_map_app.
    assert (Hgrid : flat_map (fun op => match op with fillText t _ _ => [t] | _ => [] end)
                             (drawGrid width height) = []) by reflexivity.
    assert (Hhead : flat_map (fun op => match op with fillText t _ _ => [t] | _ => [] end)
                             (if isPlaying then drawPlayhead now width height else [])
                    = []) by (destruct isPlaying; reflexivity).
    rewrite Hgrid, Hhead, app_nil_r. cbn [app].
    unfold forEach. generalize 0%nat.
    induction (instruments eventData) as [|label labels IH]; intros index;
      [reflexivity|].
    cbn [forEach_from]. rewrite flat_map_app, IH.
    unfold drawTrack. cbv zeta. rewrite flat_map_app.
    cbn [flat_map app]. f_equal.
    unfold forEach. rewrite forEach_from_flat_map.
    match goal with
    | |- flat_map _ (flat_map ?f ?l) ++ _ = _ =>
        assert (Hnone : flat_map
                  (fun op => match op with fillText t _ _ => [t] | _ => [] end)
                  (flat_map f l) = [])
    end.
    { induction (filter _ eventData) as [|event events IHe]; [reflexivity|].
      cbn [flat_map]. rewrite flat_map_app, IHe, app_nil_r.
      unfold drawEvent.
      destruct (isActive isPlaying now event); reflexivity. }
    rewrite Hnone. reflexivity.
Qed.

(** ** Grid, playhead and palette *)

Lemma tracks_build_no_path
      (isPlaying : bool) (eventData : list PunchcardData)
      (now width height : JS.number) (labels : list string) (index : nat) :
  filter is_path_op
         (forEach_from index labels
            (drawTrack isPlaying eventData now width height)) = [].
Proof.
  revert index. induction labels as [|label labels IH]; intros index;
    [reflexivity|].
  cbn [forEach_from]. rewrite filter_app, IH, app_nil_r.
  unfold drawTrack. cbv zeta. rewrite filter_app.
  cbn [filter is_path_op app].
  unfold forEach. rewrite forEach_from_flat_map.
  induction (filter _ eventData) as [|event events IHe]; [reflexivity|].
  cbn [flat_map]. rewrite filter_app, IHe, app_nil_r.
  unfold drawEvent. destruct (isActive isPlaying now event); reflexivity.
Qed.

Lemma filter_nil_weaken {A} (f g : A -> bool) (l : list A) :
  (forall x, f x = true -> g x = true) ->
  filter g l = [] -> filter f l = [].
Proof.
  intros Hsub Hnil. apply filter_nil_of_all_false. intros x Hx.
  destruct (f x) eqn:Hf; [|reflexivity].
  assert (Hin : In x (filter g l)).
  { apply filter_In. split; [exact Hx|now apply Hsub]. }
  rewrite Hnil in Hin. destruct Hin.
Qed.

(** X15.  On a non-empty event list the drawing starts with the grid,
    which does not depend on the events: 5 beat lines and 16 subdivision
    lines, 21 strokes.  The tracks stroke nothing.  The playhead (one more
    stroke, and one filled triangle) is drawn exactly when the page is
    playing. *)
Theorem grid_and_playhead
        (isPlaying : bool) (eventData : list PunchcardData)
        (now width height : JS.number) :
  eventData <> [] ->
  (exists rest,
      drawCustomVisualization isPlaying eventData now width height
      = drawGrid width height ++ rest) /\
  List.length (filter is_stroke (drawGrid width height)) = 21%nat /\
  List.length
    (filter is_stroke
       (drawCustomVisualization isPlaying eventData now width height))
  = (21 + (if isPlaying then 1 else 0))%nat /\
  filter is_playhead_op
         (drawCustomVisualization isPlaying eventData now width height)
  = (if isPlaying then [setLineDash []; closePath; fill] else []).
Proof.
  intros Hne. rewrite (nonempty_drawing isPlaying now width height Hne).
  split; [eexists; reflexivity|]. split; [reflexivity|].
  rewrite !filter_app. unfold forEach.
  pose proof (tracks_build_no_path isPlaying eventData now width height
                (instruments eventData) 0) as Hnone.
  assert (Hstroke : filter is_stroke
            (forEach_from 0 (instruments eventData)
               (drawTrack isPlaying eventData now width height)) = []).
  { apply (filter_nil_weaken is_stroke is_path_op); [|exact Hnone].
    intros [] Hx; try discriminate Hx; reflexivity. }
  assert (Hhead : filter is_playhead_op
            (forEach_from 0 (instruments eventData)
               (drawTrack isPlaying eventData now width height)) = []).
  { apply (filter_nil_weaken is_playhead_op is_path_op); [|exact Hnone].
    intros [] Hx; try discriminate Hx; reflexivity. }
  rewrite Hstroke, Hhead. cbn [app]. rewrite length_app.
  split.
  - destruct isPlaying; reflexivity.
  - destruct isPlaying; reflexivity.
Qed.

(** X16.  The colour of a track is always one of the six of the palette,
    whatever the number of instruments (the lookup never falls outside the
    array), and the palette is cycled: a track has the colour of the track
    six places before it. *)
Theorem palette_is_cycled (index : nat) :
  In (trackColor index) colors /\
  trackColor (index + 6) = trackColor index.
Proof.
  unfold trackColor. change (List.length colors) with 6%nat.
  split.
  - apply nth_In. change (List.length colors) with 6%nat.
    apply Nat.mod_upper_bound. discriminate.
  - replace (index + 6)%nat with (index + 1 * 6)%nat by lia.
    rewrite Nat.Div0.mod_add. reflexivity.
Qed.

End DrawingProperties.

(** The worked example: three events, three instruments, six rectangles. *)
Lemma looks_of_a_drawing_witness :
  Punchcard.exampleEvents <> [] /\
  Punchcard.looks
    (Punchcard.drawCustomVisualization false Punchcard.exampleEvents
       0.05%float 800%float 300%float)
  = [ (Punchcard.Css "rgba(255, 255, 255, 0.05)", false);
      (Punchcard.Css "#8b5cf6", false);
      (Punchcard.Css "rgba(255, 255, 255, 0.05)", false);
      (Punchcard.Css "#06b6d4", false);
      (Punchcard.Css "rgba(255, 255, 255, 0.05)", false);
      (Punchcard.Css "#10b981", false) ].
Proof.
  assert (Hne : Punchcard.exampleEvents <> []) by discriminate.
  split; [exact Hne|].
  exact (proj1 (@looks_of_a_drawing false Punchcard.exampleEvents
                  0.05%float 800%float 300%float Hne)).
Defined.

(** The worked example: three labels, six rectangles. *)
Lemma every_event_is_drawn_once_witness :
  Punchcard.exampleEvents <> [] /\
  List.length
    (Punchcard.rects
       (Punchcard.drawCustomVisualization true Punchcard.exampleEvents
          0.05%float 800%float 300%float)) = 6 /\
  Punchcard.texts
    (Punchcard.drawCustomVisualization true Punchcard.exampleEvents
       0.05%float 800%float 300%float)
  = ["bd"; "sd"; "hh"].
Proof.
  assert (Hne : Punchcard.exampleEvents <> []) by discriminate.
  split; [exact Hne|].
  exact (@every_event_is_drawn_once true Punchcard.exampleEvents
           0.05%float 800%float 300%float Hne).
Defined.

(** The worked example while playing: 22 strokes and one playhead. *)
Lemma grid_and_playhead_witness :
  Punchcard.exampleEvents <> [] /\
  List.length
    (filter Reading.is_stroke
       (Punchcard.drawCustomVisualization true Punchcard.exampleEvents
          0.05%float 800%float 300%float)) = 22.
Proof.
  assert (Hne : Punchcard.exampleEvents <> []) by discriminate.
  split; [exact Hne|].
  exact (proj1 (proj2 (proj2 (@grid_and_playhead true Punchcard.exampleEvents
                  0.05%float 800%float 300%float Hne)))).
Defined.

(** * Bounds on the sizes of a drawing *)

Section SizeProperties.

Import Punchcard Reading.

Local Open Scope float_scope.

(** ** The order of binary64 numbers *)

Lemma SFcompare_Lt_swap (a b : spec_float) :
  SFcompare a b = Some Lt -> SFcompare b a = Some Gt.
Proof.
  destruct a as [sa|sa| |sa ma ea], b as [sb|sb| |sb mb eb]; cbn;
    try discriminate;
    try (destruct sa; try destruct sb; intros H; try discriminate H; reflexivity);
    try (destruct sb; intros H; try discriminate H; reflexivity).
  rewrite (Z.compare_antisym ea eb).
  change (PosDef.Pos.compare_cont Eq mb ma) with (Pos.compare mb ma).
  change (PosDef.Pos.compare_cont Eq ma mb) with (Pos.compare ma mb).
  rewrite (Pos.compare_antisym ma mb).
  destruct sa, sb; try discriminate; try reflexivity;
    destruct (ea ?= eb)%Z; cbn; try discriminate; try reflexivity;
    destruct (ma ?= mb)%positive; cbn; intros H; try discriminate H; reflexivity.
Qed.

Lemma SFcompare_refl (a : spec_float) :
  a <> S754_nan -> SFcompare a a = Some Eq.
Proof.
  destruct a as [sa|sa| |sa ma ea]; cbn; intros Hnan;
    [reflexivity|destruct sa; reflexivity|congruence|].
  rewrite Z.compare_refl.
  change (PosDef.Pos.compare_cont Eq ma ma) with (Pos.compare ma ma).
  rewrite Pos.compare_refl. destruct sa; reflexivity.
Qed.

Lemma ltb_asym (x y : float) : (x <? y) = true -> (y <? x) = false.
Proof.
  rewrite !ltb_spec. unfold SFltb.
  destruct (SFcompare (Prim2SF x) (Prim2SF y)) as [[| |]|] eqn:Hxy;
    try discriminate.
  intros _. rewrite (SFcompare_Lt_swap _ _ Hxy). reflexivity.
Qed.

Lemma ltb_irrefl (x : float) : (x <? x) = false.
Proof.
  destruct (x <? x) eqn:Hx; [|reflexivity].
  pose proof (@ltb_asym x x Hx). congruence.
Qed.

Lemma nan_ltb (x y : float) : PrimFloat.is_nan x = true -> (x <? y) = false.
Proof.
  unfold PrimFloat.is_nan. rewrite eqb_spec, ltb_spec.
  unfold SFeqb, SFltb. intros Hnan.
  destruct (Prim2SF x) as [sx|sx| |sx mx ex] eqn:Hx; [| |reflexivity|];
    rewrite SFcompare_refl in Hnan by discriminate; discriminate.
Qed.

(** [Math.max] is never below either argument. *)
Lemma Math_max_not_below (a b : float) :
  (JS.Math_max a b <? a) = false /\ (JS.Math_max a b <? b) = false.
Proof.
  unfold JS.Math_max.
  destruct (PrimFloat.is_nan a) eqn:Ha; [split; now apply nan_ltb|].
  destruct (PrimFloat.is_nan b) eqn:Hb; [split; now apply nan_ltb|].
  destruct (a <? b) eqn:Hab; [split; [now apply ltb_asym|apply ltb_irrefl]|].
  destruct (b <? a) eqn:Hba; [split; [apply ltb_irrefl|exact Hab]|].
  destruct (PrimFloat.get_sign a); split;
    solve [apply ltb_irrefl | assumption].
Qed.

(** X17.  The minimum sizes of the layout, for every event list and every
    canvas size: the height of a track is never below 40, and the
    rectangle of an event is never narrower than 12 (a size that is not a
    number, for a canvas size that is not one, is not below either). *)
Theorem minimum_sizes
        (isPlaying : bool) (eventData : list PunchcardData)
        (now width height y : JS.number) (color : string)
        (event : PunchcardData) (p : Paint) :
  (trackHeight eventData height <? 40) = false /\
  forall r,
    In r (rects_from p (drawEvent isPlaying eventData now width height y color event)) ->
    (rect_w r <? 12) = false.
Proof.
  split; [apply Math_max_not_below|].
  intros r. unfold drawEvent. cbv zeta.
  destruct (isActive isPlaying now event); cbn [app rects_from];
    (intros [Hr|[]]; subst r; cbn [rect_w]; apply Math_max_not_below).
Qed.

End SizeProperties.

(** * Properties of the [Punchcard] effect *)

Section EffectProperties.

Import Punchcard PunchcardEffect.

Local Open Scope float_scope.

Context {Hap : Type}.

Implicit Types (canvasRef : option Canvas) (devicePixelRatio : option JS.number)
         (drawPianoroll : PianorollOptions Hap -> App.Completion unit)
         (data : list PunchcardData) (isPlaying : bool)
         (pattern : option (Pattern Hap)) (currentTimeProp : option JS.number).

Lemma overlay_cases drawPianoroll currentTimeProp
      (query : JS.number -> JS.number -> App.Completion (option (list Hap))) :
  overlay drawPianoroll currentTimeProp query =
    match query (JS.Math_max 0 (currentTime currentTimeProp - 2))
                (currentTime currentTimeProp + 2) with
    | App.Throw e =>
        ([callQueryArc (JS.Math_max 0 (currentTime currentTimeProp - 2))
                       (currentTime currentTimeProp + 2);
          consoleWarn "Error with Strudel drawPianoroll:" e],
         App.Normal tt)
    | App.Normal (Some (h :: rest)) =>
        match drawPianoroll
                (overlayOptions (h :: rest) (currentTime currentTimeProp)) with
        | App.Normal _ =>
            ([callQueryArc (JS.Math_max 0 (currentTime currentTimeProp - 2))
                           (currentTime currentTimeProp + 2);
              consoleLog "Strudel haps:";
              callDrawPianoroll
                (overlayOptions (h :: rest) (currentTime currentTimeProp))],
             App.Normal tt)
        | App.Throw e =>
            ([callQueryArc (JS.Math_max 0 (currentTime currentTimeProp - 2))
                           (currentTime currentTimeProp + 2);
              consoleLog "Strudel haps:";
              callDrawPianoroll
                (overlayOptions (h :: rest) (currentTime currentTimeProp));
              consoleWarn "Error with Strudel drawPianoroll:" e],
             App.Normal tt)
        end
    | App.Normal _ =>
        ([callQueryArc (JS.Math_max 0 (currentTime currentTimeProp - 2))
                       (currentTime currentTimeProp + 2);
          consoleLog "Strudel haps:"],
         App.Normal tt)
    end.
Proof.
  unfold overlay. cbv zeta.
  destruct (query _ _) as [[[|h rest]|]|e]; try reflexivity.
  cbn [bind emit try_catch app].
  destruct (drawPianoroll _) as [[]|e]; reflexivity.
Qed.

Lemma overlay_completes drawPianoroll currentTimeProp
      (query : JS.number -> JS.number -> App.Completion (option (list Hap))) :
  snd (overlay drawPianoroll currentTimeProp query) = App.Normal tt /\
  forallb (@is_overlay_op Hap) (fst (overlay drawPianoroll currentTimeProp query))
  = true.
Proof.
  rewrite overlay_cases.
  destruct (query _ _) as [[[|h rest]|]|e]; try (split; reflexivity).
  destruct (drawPianoroll _) as [[]|e]; split; reflexivity.
Qed.

Lemma effect_cases canvasRef devicePixelRatio drawPianoroll data isPlaying
      pattern currentTimeProp :
  effect canvasRef devicePixelRatio drawPianoroll data isPlaying pattern
         currentTimeProp =
    match canvasRef with
    | None => ([], App.Normal tt)
    | Some canvas =>
        if visible canvasRef then
          if has2d canvas then
            (coreLog Hap canvas devicePixelRatio data isPlaying currentTimeProp
               ++ match queryOf pattern with
                  | Some query => fst (overlay drawPianoroll currentTimeProp query)
                  | None => []
                  end,
             App.Normal tt)
          else
            ([setCanvasWidth
                (width (boundingClientRect canvas) * pixelRatio devicePixelRatio);
              setCanvasHeight
                (height (boundingClientRect canvas) * pixelRatio devicePixelRatio);
              getContext],
             App.Normal tt)
        else ([], App.Normal tt)
    end.
Proof.
  unfold effect, visible, coreLog, queryOf.
  destruct canvasRef as [canvas|]; [|reflexivity]. cbv zeta.
  destruct ((width (boundingClientRect canvas) =? 0)
            || (height (boundingClientRect canvas) =? 0)); [reflexivity|].
  cbn [negb].
  destruct (has2d canvas); [|reflexivity]. cbn [negb].
  generalize (drawCustomVisualization isPlaying data (currentTime currentTimeProp)
                (width (boundingClientRect canvas))
                (height (boundingClientRect canvas))).
  intros drawing.
  assert (Htail : forall (tail : Run Hap unit),
    snd tail = App.Normal tt ->
    bind (emits (map ctx drawing)) (fun _ => tail)
    = (map ctx drawing ++ fst tail, App.Normal tt)).
  { intros [log c] Hc. cbn in Hc. subst c. reflexivity. }
  destruct pattern as [pat|]; [destruct (queryArc pat) as [query|]|].
  - cbn [bind emit app fst snd].
    rewrite (Htail _ (proj1 (overlay_completes drawPianoroll currentTimeProp query))).
    reflexivity.
  - cbn [bind emit emits ret app fst snd]. rewrite app_nil_r. reflexivity.
  - cbn [bind emit emits ret app fst snd]. rewrite app_nil_r. reflexivity.
Qed.

Lemma coreLog_is_not_overlay (canvas : Canvas) devicePixelRatio data isPlaying
      currentTimeProp (op : Op Hap) :
  In op (coreLog Hap canvas devicePixelRatio data isPlaying currentTimeProp) ->
  is_overlay_op op = false.
Proof.
  unfold coreLog. intros Hin. apply in_app_or in Hin as [Hin|Hin].
  - cbn in Hin.
    repeat (destruct Hin as [Hin|Hin]; [subst op; reflexivity|]).
    destruct Hin.
  - apply in_map_iff in Hin as [c [Hc _]]. subst op. reflexivity.
Qed.

(** X18.  The effect does something exactly when the canvas is on screen:
    its log is empty if, and only if, the ref holds no element or the box
    of the element has a width or a height equal to 0.  On a canvas that
    gives no 2D context the effect resizes the canvas and stops there:
    nothing is drawn and the pattern is not queried. *)
Theorem effect_needs_a_visible_canvas
        canvasRef devicePixelRatio drawPianoroll data isPlaying pattern
        currentTimeProp :
  (fst (effect canvasRef devicePixelRatio drawPianoroll data isPlaying pattern
               currentTimeProp) = []
   <-> visible canvasRef = false) /\
  (forall canvas,
      canvasRef = Some canvas -> has2d canvas = false ->
      existsb (@is_ctx Hap)
              (fst (effect canvasRef devicePixelRatio drawPianoroll data
                           isPlaying pattern currentTimeProp)) = false /\
      existsb (@is_overlay_op Hap)
              (fst (effect canvasRef devicePixelRatio drawPianoroll data
                           isPlaying pattern currentTimeProp)) = false /\
      (visible canvasRef = true ->
       fst (effect canvasRef devicePixelRatio drawPianoroll data
                   isPlaying pattern currentTimeProp)
       = [setCanvasWidth
            (width (boundingClientRect canvas) * pixelRatio devicePixelRatio);
          setCanvasHeight
            (height (boundingClientRect canvas) * pixelRatio devicePixelRatio);
          getContext])).
Proof.
  rewrite effect_cases. split.
  - destruct canvasRef as [canvas|]; [|split; reflexivity].
    destruct (visible (Some canvas)); [|split; reflexivity].
    destruct (has2d canvas); split; discriminate.
  - intros canvas Href Hno. subst canvasRef. rewrite Hno.
    destruct (visible (Some canvas)); repeat split;
      try reflexivity; discriminate.
Qed.

(** X19.  A failure of the overlay never leaves the effect and never
    touches the component's own drawing.  Whatever the [pattern] prop is
    and whatever the query and [drawPianoroll] do (return or throw), the
    effect completes normally, and its log is the log of the same render
    without a pattern, followed by operations of the overlay only (the
    query, the external drawing, their console output). *)
Theorem overlay_failure_is_contained
        canvasRef devicePixelRatio drawPianoroll data isPlaying pattern
        currentTimeProp :
  snd (effect canvasRef devicePixelRatio drawPianoroll data isPlaying pattern
              currentTimeProp) = App.Normal tt /\
  exists tail,
    fst (effect canvasRef devicePixelRatio drawPianoroll data isPlaying pattern
                currentTimeProp)
    = fst (effect canvasRef devicePixelRatio drawPianoroll data isPlaying None
                  currentTimeProp) ++ tail /\
    forallb (@is_overlay_op Hap) tail = true /\
    existsb (@is_ctx Hap) tail = false.
Proof.
  rewrite !effect_cases.
  destruct canvasRef as [canvas|];
    [|split; [reflexivity|exists []; repeat split; reflexivity]].
  destruct (visible (Some canvas));
    [|split; [reflexivity|exists []; repeat split; reflexivity]].
  destruct (has2d canvas);
    [|split; [reflexivity|exists []; repeat split; reflexivity]].
  split; [reflexivity|].
  cbn [queryOf fst]. rewrite app_nil_r.
  destruct (queryOf pattern) as [query|];
    [|exists []; rewrite app_nil_r; repeat split; reflexivity].
  exists (fst (overlay drawPianoroll currentTimeProp query)).
  split; [reflexivity|].
  rewrite overlay_cases.
  destruct (query _ _) as [[[|h rest]|]|e]; try (split; reflexivity).
  destruct (drawPianoroll _) as [[]|e]; split; reflexivity.
Qed.

(** X20.  The overlay draws only what the pattern answered.  The pattern is
    queried on the window from [Math.max(0, currentTime - 2)] (never below
    0) to [currentTime + 2]; [drawPianoroll] is called only when the [pattern]
    prop has a [queryArc] function whose answer on that window is a non-empty array,
    and then with these haps, the current time, and the fixed options. *)
Theorem overlay_draws_the_queried_haps
        canvasRef devicePixelRatio drawPianoroll data isPlaying pattern
        currentTimeProp :
  (forall from to,
      In (callQueryArc from to)
         (fst (effect canvasRef devicePixelRatio drawPianoroll data isPlaying
                      pattern currentTimeProp)) ->
      from = JS.Math_max 0 (currentTime currentTimeProp - 2) /\
      to = currentTime currentTimeProp + 2 /\
      (from <? 0) = false) /\
  (forall options,
      In (callDrawPianoroll options)
         (fst (effect canvasRef devicePixelRatio drawPianoroll data isPlaying
                      pattern currentTimeProp)) ->
      haps options <> [] /\
      options = overlayOptions (haps options) (currentTime currentTimeProp) /\
      exists query,
        queryOf pattern = Some query /\
        query (JS.Math_max 0 (currentTime currentTimeProp - 2))
              (currentTime currentTimeProp + 2)
        = App.Normal (Some (haps options))).
Proof.
  assert (Hoverlay : forall op : Op Hap,
    is_overlay_op op = true ->
    In op (fst (effect canvasRef devicePixelRatio drawPianoroll data isPlaying
                       pattern currentTimeProp)) ->
    exists query,
      queryOf pattern = Some query /\
      In op (fst (overlay drawPianoroll currentTimeProp query))).
  { intros op Hop. rewrite effect_cases.
    destruct canvasRef as [canvas|]; [|intros []].
    destruct (visible (Some canvas)); [|intros []].
    destruct (has2d canvas).
    - cbn [fst]. intros Hin. apply in_app_or in Hin as [Hin|Hin].
      + apply coreLog_is_not_overlay in Hin. congruence.
      + destruct (queryOf pattern) as [query|]; [|destruct Hin].
        exists query. split; [reflexivity|exact Hin].
    - cbn [fst In]. intros [Hin|[Hin|[Hin|[]]]]; subst op; discriminate. }
  split.
  - intros from to Hin.
    destruct (Hoverlay (callQueryArc from to) eq_refl Hin) as [query [_ Hq]].
    rewrite overlay_cases in Hq.
    assert (Hwin : from = JS.Math_max 0 (currentTime currentTimeProp - 2)
                   /\ to = currentTime currentTimeProp + 2).
    { destruct (query _ _) as [[[|h rest]|]|e];
        try (destruct (drawPianoroll _) as [[]|e']);
        cbn [fst In] in Hq;
        repeat match type of Hq with
               | _ \/ _ => destruct Hq as [Hq|Hq]
               end;
        first [contradiction | discriminate Hq
              | inversion Hq; split; reflexivity]. }
    destruct Hwin as [Hfrom Hto]. subst from to.
    repeat split. apply Math_max_not_below.
  - intros options Hin.
    destruct (Hoverlay (callDrawPianoroll options) eq_refl Hin) as [query [Hquery Hq]].
    rewrite overlay_cases in Hq.
    destruct (query _ _) as [[[|h rest]|]|e] eqn:Hanswer;
      try (cbn [fst In] in Hq;
           repeat match type of Hq with
                  | _ \/ _ => destruct Hq as [Hq|Hq]
                  end;
           first [contradiction | discriminate Hq]).
    assert (Hopt : options
                   = overlayOptions (h :: rest) (currentTime currentTimeProp)).
    { destruct (drawPianoroll _) as [[]|e'];
        cbn [fst In] in Hq;
        repeat match type of Hq with
               | _ \/ _ => destruct Hq as [Hq|Hq]
               end;
        first [contradiction | discriminate Hq
              | inversion Hq; reflexivity]. }
    subst options. cbn [haps overlayOptions].
    split; [discriminate|]. split; [reflexivity|].
    exists query. split; [exact Hquery|exact Hanswer].
Qed.

End EffectProperties.

(** A canvas without 2D context is resized and nothing more. *)
Lemma effect_needs_a_visible_canvas_witness :
  PunchcardEffect.has2d Stage.noContext = false /\
  existsb (@PunchcardEffect.is_ctx string)
    (fst (PunchcardEffect.effect (Some Stage.noContext) None Stage.drawOk []
            true (Some Stage.answering) None)) = false /\
  existsb (@PunchcardEffect.is_overlay_op string)
    (fst (PunchcardEffect.effect (Some Stage.noContext) None Stage.drawOk []
            true (Some Stage.answering) None)) = false.
Proof.
  split; [reflexivity|].
  pose proof (proj2 (@effect_needs_a_visible_canvas string
                       (Some Stage.noContext) None Stage.drawOk [] true
                       (Some Stage.answering) None)
                    Stage.noContext eq_refl eq_refl) as H.
  split; [exact (proj1 H)|exact (proj1 (proj2 H))].
Defined.

(** A pattern that answers one hap at time 1: the overlay is drawn with
    it. *)
Lemma overlay_draws_the_queried_haps_witness :
  In (PunchcardEffect.callDrawPianoroll
        (PunchcardEffect.overlayOptions ["bd"] 1%float))
     (fst (PunchcardEffect.effect (Some Stage.onScreen) (Some 2%float)
             Stage.drawOk [] true (Some Stage.answering) (Some 1%float))) /\
  PunchcardEffect.haps (PunchcardEffect.overlayOptions ["bd"] 1%float) <> [] /\
  exists query,
    PunchcardEffect.queryOf (Some Stage.answering) = Some query /\
    query (JS.Math_max 0 (1 - 2))%float (1 + 2)%float
    = App.Normal (Some ["bd"]).
Proof.
  assert (Hin :
    In (PunchcardEffect.callDrawPianoroll
          (PunchcardEffect.overlayOptions ["bd"] 1%float))
       (fst (PunchcardEffect.effect (Some Stage.onScreen) (Some 2%float)
               Stage.drawOk [] true (Some Stage.answering) (Some 1%float)))).
  { cbv [PunchcardEffect.effect PunchcardEffect.bind PunchcardEffect.emit
         PunchcardEffect.emits PunchcardEffect.ret PunchcardEffect.overlay
         PunchcardEffect.try_catch Stage.onScreen Stage.answering Stage.drawOk
         PunchcardEffect.boundingClientRect PunchcardEffect.has2d
         PunchcardEffect.queryArc PunchcardEffect.width PunchcardEffect.height
         Punchcard.drawCustomVisualization Punchcard.drawNoData
         Punchcard.for_range flat_map seq List.length Nat.eqb Nat.sub
         map app fst negb orb].
    cbn.
    repeat (first [left; reflexivity | right]). }
  split; [exact Hin|].
  pose proof (proj2 (@overlay_draws_the_queried_haps string (Some Stage.onScreen)
                       (Some 2%float) Stage.drawOk [] true
                       (Some Stage.answering) (Some 1%float))
                    _ Hin) as H.
  split; [exact (proj1 H)|exact (proj2 (proj2 H))].
Defined.
